(** * Staged-upload file lifecycle: the temp reaper, the upload middleware
      and the post/file binding.

    Shallow embedding of
      - [src/Node/NodeJWT/fileupload/multer-manager.js]  (module [NodeJWT]),
      - [src/unnamed/part_001], the later MulterManager  (module [MulterManager]),
      - [src/unnamed/part_000], the Post model           (module [Post]).

    Times are milliseconds, kept in [Z].  The content of a directory is a
    finite map keyed by strings; a JS object used as a dictionary is the
    finite map of its own properties together with its prototype. *)

From stdpp Require Import gmap strings list fin_maps.
From Stdlib Require Import ZArith.

Local Open Scope Z_scope.

(** ** JavaScript [a || b] on option fields *)

(** [opts.x || d] for a numeric option: [undefined], and the falsy number [0],
    give the default. *)
Definition or_num (o : option Z) (d : Z) : Z :=
  match o with
  | Some v => if decide (v = 0) then d else v
  | None => d
  end.

(** [opts.x || d] for a string option: [undefined] and the empty string give
    the default. *)
Definition or_str (o : option string) (d : string) : string :=
  match o with
  | Some v => if decide (v = EmptyString) then d else v
  | None => d
  end.

(** ** The staging directory *)

(** What [fs.promises.stat] tells the reaper about one entry. *)
Record Stats := mkStats {
  isDirectory : bool;
  birthtimeMs : Z
}.

(** The immediate entries of [tmpDir]: entry name to its stats. *)
Abbreviation Staging := (gmap string Stats).

(** Constructor options; an omitted field is [None]. *)
Record Opts := mkOpts {
  o_clearTmpTime : option Z;
  o_clearTmpIntervalTime : option Z;
  o_tmpDir : option string;
  o_dstDir : option string
}.

Definition no_opts : Opts := mkOpts None None None None.

(** The fields a manager keeps after construction. *)
Record Manager := mkManager {
  clearTmpTime : Z;
  clearTmpIntervalTime : Z;
  tmpDir : string;
  dstDir : string
}.

(** [fs.promises.readdir]: the names of the entries. *)
Definition readdir (fs : Staging) : list string := (map_to_list fs).*1.

(** One element of the [files.map(async file => ...)] of the sweep: stat the
    entry; only a directory is looked at further; it is removed when the sweep
    is forced or the entry has expired.  A [stat] that finds nothing throws,
    which the sweep logs: the directory content stays as it is. *)
Definition sweep_entry (expiry : Z) (force : bool) (date : Z)
    (fs : Staging) (file : string) : Staging :=
  match fs !! file with
  | Some stats =>
      if isDirectory stats then
        let expired := bool_decide (expiry ≤ date - birthtimeMs stats) in
        if force || expired then delete file fs else fs
      else fs
  | None => fs
  end.

(** What a sweep leaves of an entry: nothing when it is a directory and the
    sweep is forced or the entry has expired, the entry itself otherwise. *)
Definition kept (expiry : Z) (force : bool) (date : Z) (stats : Stats)
    : option Stats :=
  if isDirectory stats
       && (force || bool_decide (expiry ≤ date - birthtimeMs stats))
  then None else Some stats.

Definition second : Z := 1000.
Definition minute : Z := 60 * second.
Definition hour : Z := 60 * minute.

(** *** src/Node/NodeJWT/fileupload/multer-manager.js *)
Module NodeJWT.

Definition constructor (opts : Opts) : Manager :=
  {| clearTmpTime := or_num (o_clearTmpTime opts) (1000 * 5);
     clearTmpIntervalTime := or_num (o_clearTmpIntervalTime opts) 1000;
     tmpDir := or_str (o_tmpDir opts) "tmp";
     dstDir := or_str (o_dstDir opts) "data" |}.

(** [clearTemp({ force })] with [Date.now() = date]. *)
Definition clearTemp (this : Manager) (force : bool) (date : Z)
    (fs : Staging) : Staging :=
  let files := readdir fs in
  foldl (sweep_entry (clearTmpTime this) force date) fs files.

End NodeJWT.

(** *** src/unnamed/part_001 *)
Module MulterManager.

Definition constructor (opts : Opts) : Manager :=
  {| clearTmpTime := or_num (o_clearTmpTime opts) (1000 * 60 * 60 * 5);
     clearTmpIntervalTime :=
       or_num (o_clearTmpIntervalTime opts) (1000 * 60 * 10);
     tmpDir := or_str (o_tmpDir opts) "tmp";
     dstDir := or_str (o_dstDir opts) "data" |}.

(** [_clearTemp({ force })] with [Date.now() = date]. *)
Definition _clearTemp (this : Manager) (force : bool) (date : Z)
    (fs : Staging) : Staging :=
  let files := readdir fs in
  foldl (sweep_entry (clearTmpTime this) force date) fs files.

(** The process around a manager: the staging directory, the intervals that
    are running (handle to period), the handle the next [setInterval] gives
    out, and the manager's private field [#clearTmpInterval]. *)
Record Process := mkProcess {
  p_fs : Staging;
  p_intervals : gmap nat Z;
  p_next : nat;
  p_clearTmpInterval : option nat
}.

(** [setInterval(callback, ms)]: a new running interval; its handle. *)
Definition setInterval (ms : Z) (p : Process) : nat * Process :=
  (p_next p,
   {| p_fs := p_fs p; p_intervals := <[p_next p := ms]> (p_intervals p);
      p_next := S (p_next p); p_clearTmpInterval := p_clearTmpInterval p |}).

(** [clearInterval(handle)]; [clearInterval(undefined)] does nothing. *)
Definition clearInterval (handle : option nat) (p : Process) : Process :=
  match handle with
  | Some h =>
      {| p_fs := p_fs p; p_intervals := delete h (p_intervals p);
         p_next := p_next p; p_clearTmpInterval := p_clearTmpInterval p |}
  | None => p
  end.

Definition sweep (this : Manager) (force : bool) (date : Z) (p : Process)
    : Process :=
  {| p_fs := _clearTemp this force date (p_fs p);
     p_intervals := p_intervals p; p_next := p_next p;
     p_clearTmpInterval := p_clearTmpInterval p |}.

(** [startClearInterval()], its forced sweep running at [date]. *)
Definition startClearInterval (this : Manager) (date : Z) (p : Process)
    : Process :=
  let p := sweep this true date p in
  let '(h, p) := setInterval (clearTmpIntervalTime this) p in
  {| p_fs := p_fs p; p_intervals := p_intervals p; p_next := p_next p;
     p_clearTmpInterval := Some h |}.

(** [stopClearInterval()], its forced sweep running at [date]. *)
Definition stopClearInterval (this : Manager) (date : Z) (p : Process)
    : Process :=
  let p := sweep this true date p in
  clearInterval (p_clearTmpInterval p) p.

(** The callback of the interval [h] firing at [date]: a sweep that is not
    forced, when the interval is still running. *)
Definition tick (this : Manager) (h : nat) (date : Z) (p : Process)
    : Process :=
  match p_intervals p !! h with
  | Some _ => sweep this false date p
  | None => p
  end.

(** What can happen to the process of one manager, and a history of it. *)
Inductive Call :=
  | Start (date : Z)
  | Stop (date : Z)
  | Tick (h : nat) (date : Z).

Definition call (this : Manager) (p : Process) (c : Call) : Process :=
  match c with
  | Start date => startClearInterval this date p
  | Stop date => stopClearInterval this date p
  | Tick h date => tick this h date p
  end.

Definition calls (this : Manager) (cs : list Call) (p : Process) : Process :=
  foldl (call this) p cs.

(** A process in which nothing has been started yet. *)
Definition fresh_process (fs : Staging) : Process :=
  {| p_fs := fs; p_intervals := ∅; p_next := 0; p_clearTmpInterval := None |}.

End MulterManager.

(** ** Results, exceptions and file descriptors *)

(** A thrown [Error] object; only its [message] is ever read. *)
Record JsError := mkError { e_message : string }.

(** How an awaited call ends: it returns a value or it throws. *)
Inductive Outcome (A : Type) : Type :=
  | Returned (a : A)
  | Thrown (e : JsError).
Arguments Returned {A} a.
Arguments Thrown {A} e.

(** What V8 throws on [undefined.prop]. *)
Definition TypeError_reading (prop : string) : JsError :=
  mkError ("Cannot read properties of undefined (reading '" +:+ prop +:+ "')").

(** The descriptor multer hands over for one uploaded file. *)
Record MulterFile := mkMulterFile {
  fieldname : string;
  originalname : string;
  mimetype : string;
  path : string;
  size : Z
}.

(** Ids are what [model.id] gives: the id as a string. *)
Abbreviation FileId := string.

(** A stored File document. *)
Record FileRecord := mkFileRecord {
  id : FileId;
  f_path : string;
  f_ownerId : string
}.

(** The [{status, model, message}] objects passed around; a missing property
    is [None]. *)
Record Result := mkResult {
  status : string;
  model : option FileRecord;
  message : option string
}.

(** The two statics of [./File] that the Post model calls.  The module itself
    is outside the sources at hand, so the Post methods are stated over any
    implementation acting on some [World] (database plus disk). *)
Class FileModel (World : Type) := {
  createAndMove : MulterFile → string → World → Outcome Result * World;
  deleteAndRemoveById : FileId → World → Outcome Result * World
}.

(** ** Array primitives of JavaScript used by the Post model *)

Fixpoint indexOf_from (x : FileId) (l : list FileId) (i : Z) : Z :=
  match l with
  | [] => -1
  | y :: l' => if decide (y = x) then i else indexOf_from x l' (i + 1)
  end.

(** [l.indexOf(x)]: first index holding [x], or [-1]. *)
Definition indexOf (x : FileId) (l : list FileId) : Z := indexOf_from x l 0.

(** [l.includes(x)]. *)
Definition includes (x : FileId) (l : list FileId) : bool := bool_decide (x ∈ l).

(** [l.splice(start, deleteCount)], the array that is left.  A negative
    [start] counts from the end, so [splice(-1, 1)] drops the last element. *)
Definition splice (start deleteCount : Z) (l : list FileId) : list FileId :=
  let len := Z.of_nat (length l) in
  let actualStart :=
    if decide (start < 0) then Z.max (len + start) 0 else Z.min start len in
  let actualDeleteCount := Z.min (Z.max deleteCount 0) (len - actualStart) in
  take (Z.to_nat actualStart) l
    ++ drop (Z.to_nat (actualStart + actualDeleteCount)) l.

(** ** src/unnamed/part_000: the Post model *)
Module Post.

(** A Post document.  [files] is [None] when the property is missing
    ([!this.files] holds), which two of the methods test for. *)
Record t := mk {
  title : string;
  body : string;
  ownerId : string;
  files : option (list FileId);
  accessHoldersIds : list string;
  createdDate : Z;
  updatedDate : Z
}.

Definition set_files (this : t) (fs : option (list FileId)) : t :=
  {| title := title this; body := body this; ownerId := ownerId this;
     files := fs; accessHoldersIds := accessHoldersIds this;
     createdDate := createdDate this; updatedDate := updatedDate this |}.

(** [if(!this.files) this.files = []]. *)
Definition ensure_files (this : t) : t :=
  match files this with
  | None => set_files this (Some [])
  | Some _ => this
  end.

(** [this.files.push(x)] on a document whose [files] is an array. *)
Definition push (this : t) (x : FileId) : t :=
  match files this with
  | Some fs => set_files this (Some (fs ++ [x]))
  | None => this
  end.

(** The [data] handed to [setFields]; a property that is not there is
    [None]. *)
Record Data := mkData {
  d_title : option string;
  d_body : option string
}.

Definition set_title (this : t) (v : string) : t :=
  {| title := v; body := body this; ownerId := ownerId this;
     files := files this; accessHoldersIds := accessHoldersIds this;
     createdDate := createdDate this; updatedDate := updatedDate this |}.

Definition set_body (this : t) (v : string) : t :=
  {| title := title this; body := v; ownerId := ownerId this;
     files := files this; accessHoldersIds := accessHoldersIds this;
     createdDate := createdDate this; updatedDate := updatedDate this |}.

(** [setFields(data)]: [if(data.title) this.title = data.title], the same
    for [body]; a missing property and the empty string are falsy. *)
Definition setFields (this : t) (data : Data) : t :=
  let this :=
    match d_title data with
    | Some v => if decide (v = EmptyString) then this else set_title this v
    | None => this
    end in
  let this :=
    match d_body data with
    | Some v => if decide (v = EmptyString) then this else set_body this v
    | None => this
    end in
  this.

Definition not_found (x : FileId) : Result :=
  {| status := "fail"; model := None;
     message := Some ("Not found file of post with id " +:+ x) |}.

(** Where a call of [removeFileById] stands once its synchronous part has
    run: it has returned already, or it is suspended at
    [await FileModel.deleteAndRemoveById(id)]. *)
Inductive Started :=
  | Resolved (r : Result)
  | Awaiting (x : FileId).

Section Methods.
Context {World : Type} `{!FileModel World}.

(** [addFile(multifile, userId)]: the outcome, the document and the world
    afterwards. *)
Definition addFile (this : t) (multifile : MulterFile) (userId : string)
    (w : World) : Outcome Result * t * World :=
  match createAndMove multifile userId w with
  | (Thrown e, w') => (Thrown e, this, w')
  | (Returned res, w') =>
      let this := ensure_files this in
      if decide (status res = "success") then
        match model res with
        | Some m => (Returned res, push this (id m), w')
        | None => (Thrown (TypeError_reading "id"), this, w')
        end
      else (Returned res, this, w')
  end.

(** [removeFileById(id)] up to its [await]. *)
Definition removeFileById_start (this : t) (x : FileId) : Started :=
  match files this with
  | None => Resolved (not_found x)
  | Some fs => if includes x fs then Awaiting x else Resolved (not_found x)
  end.

(** [removeFileById(id)] from its [await] on, given how
    [deleteAndRemoveById(id)] ended; [this] is the document as it is at
    that moment. *)
Definition removeFileById_resume (this : t) (x : FileId)
    (out : Outcome Result) : Outcome Result * t :=
  match out with
  | Thrown e => (Thrown e, this)
  | Returned r =>
      if decide (status r = "fail") then
        (Returned {| status := status r; model := None;
                     message := message r |}, this)
      else
        match files this with
        | Some fs =>
            let index := indexOf x fs in
            (Returned {| status := status r; model := model r;
                         message := None |},
             set_files this (Some (splice index 1 fs)))
        | None => (Thrown (TypeError_reading "indexOf"), this)
        end
  end.

(** [removeFileById(id)] awaited on its own, nothing else running. *)
Definition removeFileById (this : t) (x : FileId) (w : World)
    : Outcome Result * t * World :=
  match removeFileById_start this x with
  | Resolved r => (Returned r, this, w)
  | Awaiting x =>
      let '(out, w') := deleteAndRemoveById x w in
      let '(res, this') := removeFileById_resume this x out in
      (res, this', w')
  end.

(** [this.files.map(async id => await this.removeFileById(id))]: [map] runs
    the synchronous part of every call, in the order of the array, before
    anything resumes.  A call that passes the [includes] test calls
    [deleteAndRemoveById] there and then, so the file deletions act on the
    world one after the other in the order of the array; the call is left
    suspended at its [await], with what its deletion gave. *)
Fixpoint launch (this : t) (xs : list FileId) (w : World)
    : list (FileId * Outcome Result) * World :=
  match xs with
  | [] => ([], w)
  | x :: xs' =>
      match removeFileById_start this x with
      | Resolved _ => launch this xs' w
      | Awaiting x' =>
          let '(out, w') := deleteAndRemoveById x' w in
          let '(flight, w'') := launch this xs' w' in
          ((x', out) :: flight, w'')
      end
  end.

(** The state of a running [deleteAllFiles]: the document, the world, the
    removals suspended at their [await] (each with what its file deletion
    gave), and the removals that have resumed and settled so far, oldest
    first. *)
Record Run := mkRun {
  r_this : t;
  r_world : World;
  r_flight : list (FileId * Outcome Result);
  r_settled : list (FileId * Outcome Result)
}.

(** The ids of the removals that have not resumed yet. *)
Definition r_pending (r : Run) : list FileId := (r_flight r).*1.

(** One suspended removal resumes on the document: the one at position
    [c mod n] of the [n] in flight.  [None] when nothing is in flight. *)
Definition step (c : nat) (r : Run) : option (Outcome Result * Run) :=
  match r_flight r with
  | [] => None
  | e0 :: _ =>
      let i := (c `mod` length (r_flight r))%nat in
      let '(x, out) := nth i (r_flight r) e0 in
      let '(res, this') := removeFileById_resume (r_this r) x out in
      Some (res,
            {| r_this := this'; r_world := r_world r;
               r_flight := delete i (r_flight r);
               r_settled := r_settled r ++ [(x, out)] |})
  end.

(** Once [Promise.all] has rejected, [deleteAllFiles] reaches its [catch]
    only some turns of the job queue later; the removals that resume in
    between still act on the document.  Which ones do is not up to the code:
    what is left of the schedule says it, one resumption per entry. *)
Fixpoint drain (sched : list nat) (r : Run) : Run :=
  match sched with
  | [] => r
  | c :: sched' =>
      match step c r with
      | Some (_, r') => drain sched' r'
      | None => r
      end
  end.

(** The suspended removals resume one at a time, in an order the code does
    not control: [sched] picks which one is next (the first in flight when
    [sched] has run out).  When all have resumed without a throw,
    [Promise.all] fulfils.  The first removal that throws rejects it with
    that error; the run then goes on as [drain] says until the method
    returns, the removals still in flight resuming only after that. *)
Fixpoint settle (n : nat) (sched : list nat) (r : Run)
    : option JsError * Run :=
  match n with
  | O => (None, r)
  | S n' =>
      match step (hd 0%nat sched) r with
      | None => (None, r)
      | Some (Thrown e, r') => (Some e, drain (tl sched) r')
      | Some (Returned _, r') => settle n' (tl sched) r'
      end
  end.

(** [deleteAllFiles()] under the schedule [sched]: the returned object and
    the run as it stands when the method returns. *)
Definition deleteAllFiles (this : t) (sched : list nat) (w : World)
    : Result * Run :=
  match files this with
  | None =>
      ({| status := "fail"; model := None;
          message := Some (e_message (TypeError_reading "map")) |},
       mkRun this w [] [])
  | Some fs =>
      let '(flight, w') := launch this fs w in
      match settle (length flight) sched (mkRun this w' flight []) with
      | (None, r) =>
          ({| status := "success"; model := None; message := None |}, r)
      | (Some e, r) =>
          ({| status := "fail"; model := None;
              message := Some (e_message e) |}, r)
      end
  end.

(** The file deletions of [xs] performed one after the other: what each
    gave, and the world they leave. *)
Fixpoint run_deletions (xs : list FileId) (w : World)
    : list (FileId * Outcome Result) * World :=
  match xs with
  | [] => ([], w)
  | x :: xs' =>
      let '(out, w') := deleteAndRemoveById x w in
      let '(log, w'') := run_deletions xs' w' in
      ((x, out) :: log, w'')
  end.

End Methods.

(** A settled removal took its id out of [files] when the file deletion
    returned a status other than [fail]. *)
Definition spliced (entry : FileId * Outcome Result) : bool :=
  match entry.2 with
  | Returned r => bool_decide (status r ≠ "fail")
  | Thrown _ => false
  end.

Definition threw (entry : FileId * Outcome Result) : Prop :=
  ∃ e, entry.2 = Thrown e.

(** The ids the settled removals took out, and the ids they left in. *)
Definition ids_removed (log : list (FileId * Outcome Result)) : list FileId :=
  (filter (λ entry, spliced entry = true) log).*1.

Definition ids_left (log : list (FileId * Outcome Result)) : list FileId :=
  (filter (λ entry, spliced entry = false) log).*1.

(** The object [deleteAllFiles] returns on a document with a [files]
    sequence: [success] when no removal threw, [fail] with the message of the
    error otherwise. *)
Definition aggregate (oe : option JsError) : Result :=
  match oe with
  | None => {| status := "success"; model := None; message := None |}
  | Some e => {| status := "fail"; model := None;
                 message := Some (e_message e) |}
  end.

(** Two documents that differ in [files] at most. *)
Definition same_but_files (this this' : t) : Prop :=
  title this' = title this ∧ body this' = body this
  ∧ ownerId this' = ownerId this
  ∧ accessHoldersIds this' = accessHoldersIds this
  ∧ createdDate this' = createdDate this
  ∧ updatedDate this' = updatedDate this.

Section Progress.
Context {World : Type}.

(** What a stretch of a run, from [r] to [r'], has done when the removals
    [new] resumed in it: the document went from the sequence [cur] to
    [cur'], losing one occurrence of every id spliced out; every id of
    [keep], of a removal of [new] that spliced nothing, and of a removal
    still in flight is still found in [cur']; the world stayed as it was. *)
Definition progress (keep cur : list FileId) (r : Run (World := World))
    (new : list (FileId * Outcome Result)) (cur' : list FileId)
    (r' : Run (World := World)) : Prop :=
  r_settled r' = r_settled r ++ new
  ∧ r_this r' = set_files (r_this r) (Some cur')
  ∧ cur ≡ₚ ids_removed new ++ cur'
  ∧ cur' `sublist_of` cur
  ∧ keep ++ ids_left new ++ r_pending r' ⊆+ cur'
  ∧ r_flight r ≡ₚ new ++ r_flight r'
  ∧ r_world r' = r_world r.

End Progress.

End Post.

(** ** The commit protocol behind [./File] *)
Module Commit.

(** Database and disk: the bytes staged and stored, by path, and the File
    records, by id. *)
Record World := mkWorld {
  staged : gmap string string;
  store : gmap string string;
  records : gmap FileId FileRecord
}.

(** Unlinking a path fails when nothing is there. *)
Definition unlink (p : string) (disk : gmap string string)
    : option (gmap string string) :=
  match disk !! p with
  | Some _ => Some (delete p disk)
  | None => None
  end.

(** Renaming out of the staging area into the store fails when the source
    is missing. *)
Definition rename (src dst : string) (w : World) : option World :=
  match staged w !! src with
  | Some bytes =>
      Some {| staged := delete src (staged w);
              store := <[dst := bytes]> (store w);
              records := records w |}
  | None => None
  end.

Definition fail (msg : string) : Result :=
  {| status := "fail"; model := None; message := Some msg |}.

Definition success (m : FileRecord) : Result :=
  {| status := "success"; model := Some m; message := None |}.

(** Modelled from the spec: [FileModel.createAndMove] of [./File], which is
    not among the sources.  Section 4.3: check that the staged path exists;
    allocate a record with a fresh identifier, the owner id and a
    destination path in the permanent store that holds no file yet; move
    the bytes there; persist the record and return it.  A missing staged
    path and a failed move give [fail], create no record and leave the
    staged bytes in place. *)
Definition commit (multifile : MulterFile) (owner : string) (w : World)
    : Outcome Result * World :=
  match staged w !! path multifile with
  | None => (Returned (fail "missing source"), w)
  | Some _ =>
      let newid : FileId := fresh (dom (records w)) in
      let dst : string := fresh (dom (store w)) in
      let m := {| id := newid; f_path := dst; f_ownerId := owner |} in
      match rename (path multifile) dst w with
      | None => (Returned (fail "move failed"), w)
      | Some w' =>
          (Returned (success m),
           {| staged := staged w'; store := store w';
              records := <[newid := m]> (records w') |})
      end
  end.

(** Modelled from the spec: [FileModel.deleteAndRemoveById] of [./File],
    which is not among the sources.  Section 4.3: look the record up, a
    missing record gives [fail] with a not-found message; delete the bytes
    in the permanent store, and when that fails keep the record and report
    the failure; then delete the record. *)
Definition deleteAndRemove (x : FileId) (w : World)
    : Outcome Result * World :=
  match records w !! x with
  | None => (Returned (fail "not found"), w)
  | Some m =>
      match unlink (f_path m) (store w) with
      | None => (Returned (fail "could not delete the file"), w)
      | Some store' =>
          (Returned (success m),
           {| staged := staged w; store := store';
              records := delete x (records w) |})
      end
  end.

#[global] Instance file_model : FileModel World :=
  {| createAndMove := commit; deleteAndRemoveById := deleteAndRemove |}.


End Commit.

(** ** src/unnamed/part_001: [middleware(opts)] *)
Module Middleware.

Section Middleware.
(** The storage engine, and multer's [limits] and [filters] options,
    are passed through untouched. *)
Context {Storage Filters Limits : Type}.

(** One element of [opts.fields], as in [{ name: 'avatar', maxCount: 1 }]. *)
Record Field := mkField { name : string; maxCount : option nat }.

Record MwOpts := mkMwOpts {
  o_filters : option Filters;
  o_limits : option Limits;
  o_fields : option (list Field)
}.

Record UploadOptions := mkUploadOptions {
  u_storage : Storage;
  u_filters : option Filters;
  u_limits : option Limits
}.

(** The two multer uploaders the code asks for. *)
Inductive Uploader :=
  | upload_fields (uo : UploadOptions) (fields : list Field)
  | upload_any (uo : UploadOptions).

(** A request, as the uploader sees it: one whose content type is not
    multipart, which multer passes on untouched, or a multipart one, with
    the descriptors of the file parts multer has taken by the time it calls
    back, in their order of arrival.  multer calls back with an error when
    it gives a request up (a limit reached, a file refused); the callback of
    the middleware takes no argument, so the error makes no difference to
    what follows, and [parts] is then what was taken until the error. *)
Inductive Request :=
  | NotMultipart
  | Multipart (parts : list MulterFile).

(** [req.files] as the uploader leaves it: an array of descriptors, an
    object of arrays keyed by field name, or nothing. *)
Inductive ReqFiles :=
  | FilesArray (files : list MulterFile)
  | FilesByField (files : gmap string (list MulterFile))
  | FilesUndefined.

(** The first half of [middleware(opts)]: which uploader is built. *)
Definition uploader (storage : Storage) (opts : MwOpts) : Uploader :=
  let uploadOptions :=
    {| u_storage := storage; u_filters := o_filters opts;
       u_limits := o_limits opts |} in
  match o_fields opts with
  | Some fields => upload_fields uploadOptions fields
  | None => upload_any uploadOptions
  end.

(** multer: [any()] appends the descriptors to an array; [fields(...)] keeps
    an object without a prototype, in which the array of a field name is
    made when the first file of that name comes.  A request that is not
    multipart is passed on with [req.files] not set. *)
Definition multer (u : Uploader) (req : Request) : ReqFiles :=
  match req with
  | NotMultipart => FilesUndefined
  | Multipart parts =>
      match u with
      | upload_any _ => FilesArray parts
      | upload_fields _ _ =>
          FilesByField
            (foldl (λ m file,
                      <[fieldname file :=
                          default [] (m !! fieldname file) ++ [file]]> m)
                   ∅ parts)
      end
  end.

(** The prototype of the object the callback builds: [Object.prototype], as
    for any [{}], or a descriptor put there by an assignment to
    [__proto__]. *)
Inductive Prototype :=
  | ObjectPrototype
  | Descriptor (file : MulterFile).

(** The object [files] of the callback: its own properties and its
    prototype. *)
Record JsObject := mkObject {
  own : gmap string MulterFile;
  proto : Prototype
}.

(** [const files = {}]. *)
Definition empty_object : JsObject :=
  {| own := ∅; proto := ObjectPrototype |}.

(** [files[file.fieldname] = file].  Under the name [__proto__] the
    assignment runs the setter inherited from [Object.prototype]: the
    descriptor becomes the prototype of [files] and no property is added.
    Any other name adds or overwrites an own property. *)
Definition assign (files : JsObject) (file : MulterFile) : JsObject :=
  if decide (fieldname file = "__proto__") then
    {| own := own files; proto := Descriptor file |}
  else
    {| own := <[fieldname file := file]> (own files); proto := proto files |}.

(** What reading [files[k]] finds: an own property, or else whatever the
    prototype answers (the prototype itself for [__proto__], its member of
    that name, if any, for another name). *)
Inductive Read :=
  | Own (file : MulterFile)
  | Via (p : Prototype).

Definition get (files : JsObject) (k : string) : Read :=
  match own files !! k with
  | Some file => Own file
  | None => Via (proto files)
  end.

(** The callback given to the uploader: [req.files.map] with the
    assignment [files[file.fieldname] = file] for each descriptor in
    turn; the object built becomes [req.files].  Only an array has a
    [map]. *)
Definition collapse (reqfiles : ReqFiles) : Outcome JsObject :=
  match reqfiles with
  | FilesArray l => Returned (foldl assign empty_object l)
  | FilesByField _ => Thrown (mkError "req.files.map is not a function")
  | FilesUndefined => Thrown (TypeError_reading "map")
  end.

(** The function returned by [middleware(opts)], run on a request: the
    object [req.files] is when [next()] is called. *)
Definition req_files (storage : Storage) (opts : MwOpts) (req : Request)
    : Outcome JsObject :=
  collapse (multer (uploader storage opts) req).

(** The mapping handed on for a multipart request with the file parts
    [parts]: the own properties of [req.files]. *)
Definition middleware (storage : Storage) (opts : MwOpts)
    (parts : list MulterFile) : Outcome (gmap string MulterFile) :=
  match req_files storage opts (Multipart parts) with
  | Returned files => Returned (own files)
  | Thrown e => Thrown e
  end.

End Middleware.

End Middleware.

(** ** Sample inputs *)

(** A staging directory with an old upload folder, a recent one and a stray
    regular file as old as the first. *)
Definition sample_dir : Staging :=
  {[ "1677797214541" := mkStats true 0;
     "1677800000000" := mkStats true 19000000;
     "notes.txt" := mkStats false 0 ]}.

(** A world with two committed files and one staged upload, the post that
    owns the two files, a post whose [files] property is missing, and two
    upload descriptors: one for the staged upload, one whose staged path
    holds nothing. *)
Definition sample_world : Commit.World :=
  {| Commit.staged := {[ "tmp/1677797214541/avatar" := "PNG" ]};
     Commit.store := {[ "data/a" := "A"; "data/b" := "B" ]};
     Commit.records :=
       {[ "a" := mkFileRecord "a" "data/a" "u1";
          "b" := mkFileRecord "b" "data/b" "u1" ]} |}.

Definition sample_post : Post.t :=
  Post.mk "title" "body" "u1" (Some ["a"; "b"]) [] 0 0.

Definition bare_post : Post.t := Post.mk "title" "body" "u1" None [] 0 0.


Definition sample_upload : MulterFile :=
  mkMulterFile "avatar" "me.png" "image/png" "tmp/1677797214541/avatar" 3.

Definition lost_upload : MulterFile :=
  mkMulterFile "avatar" "me.png" "image/png" "tmp/gone" 3.

(** A file part sent under the field name [__proto__]. *)
Definition proto_upload : MulterFile :=
  mkMulterFile "__proto__" "x.png" "image/png" "tmp/1677797214541/x" 7.

(** A File model whose deletions go wrong for two ids: deleting ["b"] throws
    and deleting ["c"] reports a failure; any other id is deleted, and the
    world is the list of the ids deleted so far, newest first. *)
Definition flaky_model : FileModel (list FileId) :=
  {| createAndMove := λ _ _ w, (Returned (Commit.fail "disk full"), w);
     deleteAndRemoveById := λ x w,
       if decide (x = "b") then
         (Thrown (mkError "EACCES: permission denied"), w)
       else if decide (x = "c") then (Returned (Commit.fail "not found"), w)
       else (Returned (Commit.success (mkFileRecord x x "u1")), x :: w) |}.

(** A File model that reports its deletions with a status of its own. *)
Definition odd_model : FileModel (list FileId) :=
  {| createAndMove := λ _ _ w, (Returned (Commit.fail "disk full"), w);
     deleteAndRemoveById := λ x w,
       (Returned {| status := "done";
                    model := Some (mkFileRecord x x "u1");
                    message := Some "removed" |}, x :: w) |}.

Definition post_abc : Post.t :=
  Post.mk "title" "body" "u1" (Some ["a"; "b"; "c"]) [] 0 0.

Definition post_ac : Post.t :=
  Post.mk "title" "body" "u1" (Some ["a"; "c"]) [] 0 0.

Definition post_ad : Post.t :=
  Post.mk "title" "body" "u1" (Some ["a"; "d"]) [] 0 0.

Definition post_abd : Post.t :=
  Post.mk "title" "body" "u1" (Some ["a"; "b"; "d"]) [] 0 0.

(** [addFile] followed by [removeFileById] with the id [addFile] returned:
    the document and the world after the two calls, when [addFile] returned a
    successful result carrying a record. *)
Definition add_then_remove (this : Post.t) (multifile : MulterFile)
    (userId : string) (w : Commit.World) : option (Post.t * Commit.World) :=
  match Post.addFile this multifile userId w with
  | (Returned res, this1, w1) =>
      if decide (status res = "success") then
        match model res with
        | Some m =>
            let '(_, this2, w2) := Post.removeFileById this1 (id m) w1 in
            Some (this2, w2)
        | None => None
        end
      else None
  | (Thrown _, _, _) => None
  end.

(** * Properties *)

(** ** The temp reaper *)

Section Sweep.
Variables (expiry : Z) (force : bool) (date : Z).

Lemma sweep_entry_lookup (fs : Staging) (file k : string) :
  sweep_entry expiry force date fs file !! k =
    if decide (file = k) then fs !! k ≫= kept expiry force date
    else fs !! k.
Proof.
  unfold sweep_entry, kept. case_decide as Hk.
  - subst k. destruct (fs !! file) as [stats|] eqn:E; simpl; [|by rewrite E].
    destruct (isDirectory stats); simpl; [|done].
    destruct (force || _); simpl; [apply lookup_delete_eq | done].
  - destruct (fs !! file) as [stats|]; [|done].
    destruct (isDirectory stats); [|done].
    destruct (force || _); [by apply lookup_delete_ne | done].
Qed.

Lemma kept_twice (o : option Stats) :
  (o ≫= kept expiry force date) ≫= kept expiry force date
  = o ≫= kept expiry force date.
Proof.
  destruct o as [stats|]; [|done]. simpl. unfold kept.
  destruct (isDirectory stats && _) eqn:E; simpl; [done | by rewrite E].
Qed.

Lemma sweep_fold_lookup (l : list string) (fs : Staging) (k : string) :
  foldl (sweep_entry expiry force date) fs l !! k =
    if decide (k ∈ l) then fs !! k ≫= kept expiry force date else fs !! k.
Proof.
  revert fs. induction l as [|file l IH]; intros fs; cbn [foldl].
  - rewrite decide_False; [done | apply not_elem_of_nil].
  - rewrite IH, sweep_entry_lookup.
    destruct (decide (file = k)) as [->|Hne].
    + rewrite kept_twice, (decide_True (P := k ∈ k :: l)) by left.
      by destruct (decide (k ∈ l)).
    + destruct (decide (k ∈ l)) as [Hin|Hnin].
      * by rewrite decide_True by (by right).
      * rewrite decide_False; [done|].
        intros [?|?]%elem_of_cons; congruence.
Qed.

Lemma sweep_readdir_lookup (fs : Staging) (k : string) :
  foldl (sweep_entry expiry force date) fs (readdir fs) !! k
  = fs !! k ≫= kept expiry force date.
Proof.
  rewrite sweep_fold_lookup. case_decide as Hk; [done|].
  destruct (fs !! k) as [stats|] eqn:E; [|done].
  exfalso. apply Hk. unfold readdir.
  apply list_elem_of_fmap. exists (k, stats). split; [done|].
  by apply elem_of_map_to_list.
Qed.

End Sweep.

Lemma clearTemp_lookup (this : Manager) force date (fs : Staging) k :
  NodeJWT.clearTemp this force date fs !! k
  = fs !! k ≫= kept (clearTmpTime this) force date.
Proof. apply sweep_readdir_lookup. Qed.

Lemma _clearTemp_lookup (this : Manager) force date (fs : Staging) k :
  MulterManager._clearTemp this force date fs !! k
  = fs !! k ≫= kept (clearTmpTime this) force date.
Proof. apply sweep_readdir_lookup. Qed.

(** C1 (as amended).  In a sweep that is not forced, an entry of the staging
    directory that is a directory is deleted when its age, [date] minus its
    creation time, has reached [clearTmpTime]; an entry younger than
    [clearTmpTime] survives unchanged; an entry that is not a directory
    survives unchanged whatever its age.  Both versions of the manager. *)
Theorem sweep_not_forced (this : Manager) (date : Z) (fs : Staging)
    (file : string) (stats : Stats) :
  fs !! file = Some stats →
  (isDirectory stats = true → clearTmpTime this ≤ date - birthtimeMs stats →
     NodeJWT.clearTemp this false date fs !! file = None
     ∧ MulterManager._clearTemp this false date fs !! file = None)
  ∧ (date - birthtimeMs stats < clearTmpTime this →
     NodeJWT.clearTemp this false date fs !! file = Some stats
     ∧ MulterManager._clearTemp this false date fs !! file = Some stats)
  ∧ (isDirectory stats = false →
     NodeJWT.clearTemp this false date fs !! file = Some stats
     ∧ MulterManager._clearTemp this false date fs !! file = Some stats).
Proof.
  intros Hfile. rewrite clearTemp_lookup, _clearTemp_lookup, Hfile.
  simpl. unfold kept. split; [|split].
  - intros -> Hage. simpl. by rewrite bool_decide_eq_true_2.
  - intros Hage. rewrite bool_decide_eq_false_2 by lia.
    by rewrite andb_false_r.
  - by intros ->.
Qed.

Lemma sweep_not_forced_witness :
  MulterManager._clearTemp (MulterManager.constructor no_opts) false 20000000
      sample_dir !! "1677797214541" = None
  ∧ MulterManager._clearTemp (MulterManager.constructor no_opts) false 20000000
      sample_dir !! "1677800000000" = Some (mkStats true 19000000)
  ∧ NodeJWT.clearTemp (NodeJWT.constructor no_opts) false 20000000
      sample_dir !! "notes.txt" = Some (mkStats false 0).
Proof.
  pose proof (sweep_not_forced (MulterManager.constructor no_opts) 20000000
                sample_dir "1677797214541" (mkStats true 0) eq_refl)
    as (Hold & _ & _).
  pose proof (sweep_not_forced (MulterManager.constructor no_opts) 20000000
                sample_dir "1677800000000" (mkStats true 19000000) eq_refl)
    as (_ & Hyoung & _).
  pose proof (sweep_not_forced (NodeJWT.constructor no_opts) 20000000
                sample_dir "notes.txt" (mkStats false 0) eq_refl)
    as (_ & _ & Hfile).
  split; [|split].
  - apply Hold; [reflexivity | vm_compute; discriminate].
  - apply Hyoung. reflexivity.
  - apply Hfile. reflexivity.
Defined.

(** C1 as stated fails: a regular file in the staging directory whose age has
    reached [clearTmpTime] is still there after a sweep that is not forced. *)
Lemma sweep_not_forced_keeps_old_file :
  sample_dir !! "notes.txt" = Some (mkStats false 0)
  ∧ clearTmpTime (MulterManager.constructor no_opts) ≤ 20000000 - 0
  ∧ MulterManager._clearTemp (MulterManager.constructor no_opts) false 20000000
      sample_dir !! "notes.txt" ≠ None
  ∧ clearTmpTime (NodeJWT.constructor no_opts) ≤ 20000000 - 0
  ∧ NodeJWT.clearTemp (NodeJWT.constructor no_opts) false 20000000
      sample_dir !! "notes.txt" ≠ None.
Proof.
  rewrite clearTemp_lookup, _clearTemp_lookup.
  repeat split; vm_compute; discriminate.
Qed.

(** C2 (as amended).  A forced sweep deletes every entry of the staging
    directory that is a directory, whatever its age, and leaves every entry
    that is not a directory unchanged.  Both versions of the manager. *)
Theorem sweep_forced (this : Manager) (date : Z) (fs : Staging)
    (file : string) (stats : Stats) :
  fs !! file = Some stats →
  (isDirectory stats = true →
     NodeJWT.clearTemp this true date fs !! file = None
     ∧ MulterManager._clearTemp this true date fs !! file = None)
  ∧ (isDirectory stats = false →
     NodeJWT.clearTemp this true date fs !! file = Some stats
     ∧ MulterManager._clearTemp this true date fs !! file = Some stats).
Proof.
  intros Hfile. rewrite clearTemp_lookup, _clearTemp_lookup, Hfile.
  simpl. unfold kept. by split; intros ->.
Qed.

Lemma sweep_forced_witness :
  MulterManager._clearTemp (MulterManager.constructor no_opts) true 19000001
      sample_dir !! "1677800000000" = None
  ∧ NodeJWT.clearTemp (NodeJWT.constructor no_opts) true 19000001
      sample_dir !! "notes.txt" = Some (mkStats false 0).
Proof.
  pose proof (sweep_forced (MulterManager.constructor no_opts) 19000001
                sample_dir "1677800000000" (mkStats true 19000000) eq_refl)
    as (Hdir & _).
  pose proof (sweep_forced (NodeJWT.constructor no_opts) 19000001
                sample_dir "notes.txt" (mkStats false 0) eq_refl)
    as (_ & Hfile).
  split.
  - apply Hdir. reflexivity.
  - apply Hfile. reflexivity.
Defined.

(** C2 as stated fails: a regular file in the staging directory is still
    there after a forced sweep. *)
Lemma sweep_forced_keeps_file :
  sample_dir !! "notes.txt" = Some (mkStats false 0)
  ∧ MulterManager._clearTemp (MulterManager.constructor no_opts) true 20000000
      sample_dir !! "notes.txt" ≠ None
  ∧ NodeJWT.clearTemp (NodeJWT.constructor no_opts) true 20000000
      sample_dir !! "notes.txt" ≠ None.
Proof.
  split; [reflexivity|].
  rewrite clearTemp_lookup, _clearTemp_lookup. split; vm_compute; discriminate.
Qed.

(** The forced sweep as a whole: what is left is the entries that are not
    directories. *)
Lemma sweep_forced_filter (this : Manager) (date : Z) (fs : Staging) :
  MulterManager._clearTemp this true date fs
  = filter (λ kv, isDirectory kv.2 = false) fs.
Proof.
  apply map_eq. intros k. rewrite _clearTemp_lookup, map_lookup_filter.
  destruct (fs !! k) as [stats|]; [|done]. simpl. unfold kept.
  by destruct (isDirectory stats).
Qed.

(** ** Defaults of the constructor *)

(** With [clearTmpTime] and [clearTmpIntervalTime] omitted, the manager of
    part_001 takes five hours and ten minutes. *)
Lemma MulterManager_defaults (opts : Opts) :
  (o_clearTmpTime opts = None →
     clearTmpTime (MulterManager.constructor opts) = 5 * hour)
  ∧ (o_clearTmpIntervalTime opts = None →
     clearTmpIntervalTime (MulterManager.constructor opts) = 10 * minute).
Proof. split; intros H; simpl; by rewrite H. Qed.

(** C9, at the input where the code departs from it.  Constructed without
    options, the manager of NodeJWT/fileupload/multer-manager.js takes five
    seconds, not hours, as expiry and one second, not minutes, as sweep
    period. *)
Theorem NodeJWT_defaults :
  clearTmpTime (NodeJWT.constructor no_opts) = 5 * second
  ∧ clearTmpTime (NodeJWT.constructor no_opts) < 1 * hour
  ∧ clearTmpIntervalTime (NodeJWT.constructor no_opts) = 1 * second
  ∧ clearTmpIntervalTime (NodeJWT.constructor no_opts) < 1 * minute.
Proof. by vm_compute. Qed.

(** ** Array primitives *)

Lemma indexOf_from_elem (x : FileId) (l : list FileId) (i : Z) :
  x ∈ l →
  ∃ n : nat, l !! n = Some x
    ∧ (∀ j : nat, (j < n)%nat → l !! j ≠ Some x)
    ∧ indexOf_from x l i = i + Z.of_nat n.
Proof.
  revert i. induction l as [|y l IH]; intros i Hin.
  - by apply elem_of_nil in Hin.
  - simpl. destruct (decide (y = x)) as [->|Hne].
    + exists 0%nat. split; [done|]. split; [lia|lia].
    + apply elem_of_cons in Hin as [Heq|Hin]; [congruence|].
      destruct (IH (i + 1) Hin) as (n & Hn & Hfirst & Hidx).
      exists (S n). split; [done|]. split; [|lia].
      intros [|j] Hj; simpl; [congruence | apply Hfirst; lia].
Qed.

Lemma indexOf_from_not_elem (x : FileId) (l : list FileId) (i : Z) :
  x ∉ l → indexOf_from x l i = -1.
Proof.
  revert i. induction l as [|y l IH]; intros i Hnin; simpl; [done|].
  apply not_elem_of_cons in Hnin as [Hne Hnin].
  rewrite decide_False by congruence. by apply IH.
Qed.

Lemma splice_one_at (n : nat) (l : list FileId) :
  (n < length l)%nat → splice (Z.of_nat n) 1 l = take n l ++ drop (S n) l.
Proof.
  intros Hn. unfold splice. cbv zeta.
  rewrite decide_False by lia.
  rewrite (Z.min_l (Z.of_nat n)) by lia.
  rewrite (Z.max_l 1 0) by lia.
  rewrite (Z.min_l 1) by lia.
  rewrite Nat2Z.id. by replace (Z.to_nat (Z.of_nat n + 1)) with (S n) by lia.
Qed.

(** [splice(-1, 1)] is what the code would run had [indexOf] found nothing:
    it drops the last element. *)
Lemma splice_minus_one (l : list FileId) (x : FileId) :
  splice (-1) 1 (l ++ [x]) = l.
Proof.
  unfold splice. cbv zeta. rewrite length_app. simpl length.
  rewrite decide_True by lia.
  rewrite Z.max_l by lia. rewrite (Z.max_l 1 0) by lia.
  rewrite Z.min_l by lia.
  replace (Z.to_nat (Z.of_nat (length l + 1) + -1)) with (length l) by lia.
  replace (Z.to_nat (Z.of_nat (length l + 1) + -1 + 1))
    with (length (l ++ [x])) by (rewrite length_app; simpl; lia).
  rewrite take_app_length, drop_all. apply app_nil_r.
Qed.

(** Removing by [indexOf] then [splice]: the first occurrence goes, the rest
    keeps its order. *)
Lemma splice_indexOf (x : FileId) (l : list FileId) :
  x ∈ l →
  ∃ n : nat, l !! n = Some x
    ∧ (∀ j : nat, (j < n)%nat → l !! j ≠ Some x)
    ∧ splice (indexOf x l) 1 l = take n l ++ drop (S n) l.
Proof.
  intros Hin. destruct (indexOf_from_elem x l 0 Hin) as (n & Hn & Hfirst & Hidx).
  exists n. split; [done|]. split; [done|].
  unfold indexOf. rewrite Hidx, Z.add_0_l.
  apply splice_one_at. by eapply lookup_lt_Some.
Qed.

(** ** The Post methods, over any implementation of the File model *)

Section PostMethods.
Context {World : Type} `{!FileModel World}.
Implicit Types (this : Post.t) (w : World) (x : FileId).

Lemma set_files_same this fs :
  Post.files this = Some fs → Post.set_files this (Some fs) = this.
Proof. destruct this; simpl; by intros ->. Qed.

Lemma ensure_files_spec this :
  Post.files (Post.ensure_files this) = Some (default [] (Post.files this))
  ∧ (Post.files this ≠ None → Post.ensure_files this = this).
Proof.
  unfold Post.ensure_files. destruct (Post.files this) eqn:E; simpl.
  - by rewrite E.
  - done.
Qed.

(** What the resumption does on a document that holds the id. *)
Lemma resume_spec this x fs (out : Outcome Result) :
  Post.files this = Some fs → x ∈ fs →
  ∃ n : nat, fs !! n = Some x
    ∧ (∀ j : nat, (j < n)%nat → fs !! j ≠ Some x)
    ∧ Post.removeFileById_resume this x out =
        match out with
        | Thrown e => (Thrown e, this)
        | Returned r =>
            if decide (status r = "fail") then
              (Returned {| status := status r; model := None;
                           message := message r |}, this)
            else
              (Returned {| status := status r; model := model r;
                           message := None |},
               Post.set_files this (Some (take n fs ++ drop (S n) fs)))
        end.
Proof.
  intros Hfs Hin. destruct (splice_indexOf x fs Hin) as (n & Hn & Hfirst & Hsp).
  exists n. split; [done|]. split; [done|].
  unfold Post.removeFileById_resume. destruct out as [r|e]; [|done].
  case_decide; [done|]. by rewrite Hfs, Hsp.
Qed.

(** C7.  For an id that is not in the document's [files] sequence (or a
    document without one), [removeFileById] returns status [fail] with the
    not-found message naming the id; the document and the world (records and
    bytes) are as before, whatever the File model is. *)
Theorem removeFileById_absent this x w :
  (∀ fs, Post.files this = Some fs → x ∉ fs) →
  Post.removeFileById this x w =
    (Returned {| status := "fail"; model := None;
                 message := Some ("Not found file of post with id " +:+ x) |},
     this, w).
Proof.
  intros Habs. unfold Post.removeFileById, Post.removeFileById_start.
  destruct (Post.files this) as [fs|]; [|done].
  unfold includes. by rewrite bool_decide_eq_false_2 by by apply Habs.
Qed.

(** On a document that holds the id, [removeFileById] goes through its
    [await]: it resumes with what the file deletion gave. *)
Lemma removeFileById_awaits this x w fs (out : Outcome Result) w' :
  Post.files this = Some fs → x ∈ fs →
  deleteAndRemoveById x w = (out, w') →
  Post.removeFileById this x w =
    ((Post.removeFileById_resume this x out).1,
     (Post.removeFileById_resume this x out).2, w').
Proof.
  intros Hfs Hin Hdel. unfold Post.removeFileById, Post.removeFileById_start.
  rewrite Hfs. unfold includes. rewrite bool_decide_eq_true_2 by done.
  rewrite Hdel. by destruct (Post.removeFileById_resume this x out).
Qed.

(** C6.  On a document whose [files] sequence [fs] holds [x],
    [removeFileById(x)] calls [deleteAndRemoveById(x)]; when that returns
    status [success], the [files] sequence of the document afterwards is [fs]
    without the element at the first index [n] holding [x], all others in
    their order, and nothing else of the document has changed; when it
    returns status [fail] (or throws) the document is untouched. *)
Theorem removeFileById_present this x w fs (out : Outcome Result) w' :
  Post.files this = Some fs → x ∈ fs →
  deleteAndRemoveById x w = (out, w') →
  ∃ n : nat, fs !! n = Some x
    ∧ (∀ j : nat, (j < n)%nat → fs !! j ≠ Some x)
    ∧ (∀ r, out = Returned r → status r = "success" →
         (Post.removeFileById this x w).1.1 =
           Returned {| status := "success"; model := model r;
                       message := None |}
         ∧ Post.files (Post.removeFileById this x w).1.2
           = Some (take n fs ++ drop (S n) fs)
         ∧ Post.same_but_files this (Post.removeFileById this x w).1.2
         ∧ (Post.removeFileById this x w).2 = w')
    ∧ (∀ r, out = Returned r → status r = "fail" →
         Post.removeFileById this x w =
           (Returned {| status := "fail"; model := None;
                        message := message r |}, this, w'))
    ∧ (∀ e, out = Thrown e →
         Post.removeFileById this x w = (Thrown e, this, w')).
Proof.
  intros Hfs Hin Hdel.
  destruct (resume_spec this x fs out Hfs Hin) as (n & Hn & Hfirst & Hres).
  exists n. split; [done|]. split; [done|].
  rewrite (removeFileById_awaits this x w fs out w') by done. rewrite Hres.
  split; [|split].
  - intros r -> Hst. rewrite decide_False by (rewrite Hst; discriminate).
    rewrite Hst. cbn [fst snd]. by split_and!.
  - intros r -> Hst. rewrite decide_True by done. by rewrite Hst.
  - by intros e ->.
Qed.

(** C8 (as amended).  When [createAndMove] returns a result whose status is
    not [success], [addFile] returns that very result; a [files] sequence
    that was there is untouched and so is the whole document; a document
    without a [files] property gets the empty sequence and nothing else
    changes. *)
Theorem addFile_failed this (multifile : MulterFile) (userId : string) w
    (res : Result) w' :
  createAndMove multifile userId w = (Returned res, w') →
  status res ≠ "success" →
  ∃ this', Post.addFile this multifile userId w = (Returned res, this', w')
    ∧ Post.files this' = Some (default [] (Post.files this))
    ∧ this' = Post.set_files this (Post.files this')
    ∧ (Post.files this ≠ None → this' = this).
Proof.
  intros Hcm Hst. exists (Post.ensure_files this).
  unfold Post.addFile. rewrite Hcm, decide_False by done.
  destruct (ensure_files_spec this) as [Hfs Hsame].
  split; [done|]. split; [done|]. split; [|done].
  rewrite Hfs. unfold Post.ensure_files.
  destruct (Post.files this) as [fs|] eqn:E; simpl; [|done].
  symmetry. by apply set_files_same.
Qed.



End PostMethods.

Lemma removeFileById_absent_witness :
  Post.removeFileById sample_post "c" sample_world =
    (Returned {| status := "fail"; model := None;
                 message := Some "Not found file of post with id c" |},
     sample_post, sample_world).
Proof.
  apply (removeFileById_absent sample_post "c" sample_world).
  intros fs [= <-]. apply (bool_decide_unpack _). vm_compute. exact I.
Defined.

Lemma removeFileById_present_witness :
  ∃ n : nat, ["a"; "b"] !! n = Some "a"
    ∧ (∀ j : nat, (j < n)%nat → ["a"; "b"] !! j ≠ Some "a")
    ∧ (∀ r, (deleteAndRemoveById "a" sample_world).1 = Returned r →
         status r = "success" →
         (Post.removeFileById sample_post "a" sample_world).1.1 =
           Returned {| status := "success"; model := model r;
                       message := None |}
         ∧ Post.files (Post.removeFileById sample_post "a" sample_world).1.2
           = Some (take n ["a"; "b"] ++ drop (S n) ["a"; "b"])
         ∧ Post.same_but_files sample_post
             (Post.removeFileById sample_post "a" sample_world).1.2
         ∧ (Post.removeFileById sample_post "a" sample_world).2
           = (deleteAndRemoveById "a" sample_world).2)
    ∧ (∀ r, (deleteAndRemoveById "a" sample_world).1 = Returned r →
         status r = "fail" →
         Post.removeFileById sample_post "a" sample_world =
           (Returned {| status := "fail"; model := None;
                        message := message r |}, sample_post,
            (deleteAndRemoveById "a" sample_world).2))
    ∧ (∀ e, (deleteAndRemoveById "a" sample_world).1 = Thrown e →
         Post.removeFileById sample_post "a" sample_world =
           (Thrown e, sample_post, (deleteAndRemoveById "a" sample_world).2)).
Proof.
  apply (removeFileById_present sample_post "a" sample_world ["a"; "b"]).
  - reflexivity.
  - apply (bool_decide_unpack _). vm_compute. exact I.
  - apply surjective_pairing.
Defined.

(** The removal at work: the id goes, the other one stays. *)
Lemma removeFileById_present_run :
  Post.files (Post.removeFileById sample_post "a" sample_world).1.2
    = Some ["b"]
  ∧ Post.files (Post.removeFileById sample_post "b" sample_world).1.2
    = Some ["a"].
Proof. split; reflexivity. Qed.

Lemma addFile_failed_witness :
  ∃ this',
    Post.addFile sample_post lost_upload "u1" sample_world =
      (Returned (Commit.fail "missing source"), this', sample_world)
    ∧ Post.files this' = Some (default [] (Post.files sample_post))
    ∧ this' = Post.set_files sample_post (Post.files this')
    ∧ (Post.files sample_post ≠ None → this' = sample_post).
Proof.
  apply (addFile_failed sample_post lost_upload "u1" sample_world).
  - reflexivity.
  - vm_compute. discriminate.
Defined.

(** C8 as stated fails: on a document without a [files] property, an
    [addFile] whose [createAndMove] fails leaves the document with an empty
    [files] sequence, so the document is not what it was. *)
Lemma addFile_failed_sets_files :
  (createAndMove lost_upload "u1" sample_world).1
    = Returned (Commit.fail "missing source")
  ∧ Post.files bare_post = None
  ∧ Post.files (Post.addFile bare_post lost_upload "u1" sample_world).1.2
    = Some []
  ∧ (Post.addFile bare_post lost_upload "u1" sample_world).1.2 ≠ bare_post.
Proof. repeat split; vm_compute; discriminate || reflexivity. Qed.

(** ** [deleteAllFiles]: the removals in flight *)

Section DeleteAll.
Context {World : Type} `{!FileModel World}.
Implicit Types (this : Post.t) (w : World) (x : FileId).
Implicit Types (log : list (FileId * Outcome Result)).

Lemma ids_removed_cons (entry : FileId * Outcome Result) log :
  Post.ids_removed (entry :: log) =
    if Post.spliced entry then entry.1 :: Post.ids_removed log
    else Post.ids_removed log.
Proof.
  unfold Post.ids_removed. destruct (Post.spliced entry) eqn:E.
  - by rewrite filter_cons_True.
  - rewrite filter_cons_False; [done | by rewrite E].
Qed.

Lemma ids_left_cons (entry : FileId * Outcome Result) log :
  Post.ids_left (entry :: log) =
    if Post.spliced entry then Post.ids_left log
    else entry.1 :: Post.ids_left log.
Proof.
  unfold Post.ids_left. destruct (Post.spliced entry) eqn:E.
  - rewrite filter_cons_False; [done | by rewrite E].
  - by rewrite filter_cons_True.
Qed.

Lemma ids_removed_app log1 log2 :
  Post.ids_removed (log1 ++ log2)
  = Post.ids_removed log1 ++ Post.ids_removed log2.
Proof. unfold Post.ids_removed. by rewrite filter_app, fmap_app. Qed.

Lemma ids_left_app log1 log2 :
  Post.ids_left (log1 ++ log2) = Post.ids_left log1 ++ Post.ids_left log2.
Proof. unfold Post.ids_left. by rewrite filter_app, fmap_app. Qed.


(** The pick of the schedule is one of the removals in flight. *)
Lemma pick_flight {A} (c : nat) (l : list A) (d : A) :
  l ≠ [] →
  l !! (c `mod` length l)%nat = Some (nth (c `mod` length l) l d)
  ∧ l ≡ₚ nth (c `mod` length l) l d :: delete (c `mod` length l)%nat l
  ∧ (length (delete (c `mod` length l)%nat l) < length l)%nat.
Proof.
  intros Hne. set (i := (c `mod` length l)%nat).
  assert (i < length l)%nat as Hi.
  { apply Nat.mod_upper_bound. by destruct l. }
  assert (l !! i = Some (nth i l d)) as Hx.
  { rewrite nth_lookup. by destruct (lookup_lt_is_Some_2 _ _ Hi) as [y ->]. }
  split; [done|]. split; [by apply delete_Permutation|].
  rewrite length_delete by eauto. lia.
Qed.

Lemma run_deletions_step x (xs : list FileId) w (out : Outcome Result) w'
    log w'' :
  deleteAndRemoveById x w = (out, w') →
  Post.run_deletions xs w' = (log, w'') →
  Post.run_deletions (x :: xs) w = ((x, out) :: log, w'').
Proof. intros Hdel Hrun. simpl. by rewrite Hdel, Hrun. Qed.

Lemma run_deletions_ids (xs : list FileId) w :
  (Post.run_deletions xs w).1.*1 = xs.
Proof.
  revert w. induction xs as [|x xs IH]; intros w; [done|]. simpl.
  destruct (deleteAndRemoveById x w) as [out w'].
  specialize (IH w'). destruct (Post.run_deletions xs w') as [log w''].
  simpl in *. f_equal. exact IH.
Qed.

(** Every call started by [this.files.map] passes the [includes] test, so
    the deletions launched are those of all the ids, in their order. *)
Lemma launch_all this fs w :
  Post.files this = Some fs →
  Post.launch this fs w = Post.run_deletions fs w.
Proof.
  intros Hfs.
  assert (∀ l w, (∀ x, x ∈ l → x ∈ fs) →
            Post.launch this l w = Post.run_deletions l w) as Hall.
  { induction l as [|x l IH]; intros w0 Hl; [done|].
    cbn [Post.launch Post.run_deletions].
    unfold Post.removeFileById_start. rewrite Hfs. unfold includes.
    rewrite bool_decide_eq_true_2 by (apply Hl; left).
    destruct (deleteAndRemoveById x w0) as [out w'].
    rewrite IH; [done|]. intros y Hy. apply Hl. by right. }
  by apply Hall.
Qed.

Lemma progress_refl (keep cur : list FileId) (r : Post.Run (World := World)) :
  Post.files (Post.r_this r) = Some cur →
  keep ++ Post.r_pending r ⊆+ cur →
  Post.progress keep cur r [] cur r.
Proof.
  intros Hfs Hsub. unfold Post.progress.
  rewrite app_nil_r, set_files_same by done. by split_and!.
Qed.

Lemma progress_trans (keep cur cur1 cur2 : list FileId)
    (r r1 r2 : Post.Run (World := World)) new1 new2 :
  Post.progress keep cur r new1 cur1 r1 →
  Post.progress (keep ++ Post.ids_left new1) cur1 r1 new2 cur2 r2 →
  Post.progress keep cur r (new1 ++ new2) cur2 r2.
Proof.
  intros (Hs1 & Ht1 & Hr1 & Hl1 & Hk1 & Hf1 & Hw1)
         (Hs2 & Ht2 & Hr2 & Hl2 & Hk2 & Hf2 & Hw2).
  unfold Post.progress. rewrite ids_removed_app, ids_left_app. split_and!.
  - by rewrite Hs2, Hs1, <-app_assoc.
  - by rewrite Ht2, Ht1.
  - by rewrite Hr1, Hr2, <-app_assoc.
  - by etrans.
  - by rewrite <-!app_assoc in Hk2 |- *.
  - by rewrite Hf1, Hf2, <-app_assoc.
  - by rewrite Hw2.
Qed.

Lemma progress_files (keep cur cur' : list FileId)
    (r r' : Post.Run (World := World)) new :
  Post.progress keep cur r new cur' r' →
  Post.files (Post.r_this r') = Some cur'
  ∧ (keep ++ Post.ids_left new) ++ Post.r_pending r' ⊆+ cur'.
Proof.
  intros (_ & Ht & _ & _ & Hk & _ & _). rewrite Ht. split; [done|].
  by rewrite <-app_assoc.
Qed.

(** One resumption, from a document holding [cur] on which every removal in
    flight, and every id of [keep], still finds its id. *)
Lemma step_progress (c : nat) (r r1 : Post.Run (World := World))
    (res : Outcome Result) (cur keep : list FileId) :
  Post.step c r = Some (res, r1) →
  Post.files (Post.r_this r) = Some cur →
  keep ++ Post.r_pending r ⊆+ cur →
  ∃ x out cur1,
    Post.progress keep cur r [(x, out)] cur1 r1
    ∧ match res with
      | Thrown e => out = Thrown e
      | Returned _ => ¬ Post.threw (x, out)
      end
    ∧ (length (Post.r_flight r1) < length (Post.r_flight r))%nat.
Proof.
  intros Hstep Hfs Hsub. unfold Post.step in Hstep.
  unfold Post.r_pending in Hsub.
  destruct (Post.r_flight r) as [|e0 rest] eqn:Hfl; [done|].
  cbv zeta in Hstep.
  destruct (pick_flight c (e0 :: rest) e0) as (Hx & Hperm & Hlen); [done|].
  remember (c `mod` length (e0 :: rest))%nat as i eqn:Hi.
  destruct (nth i (e0 :: rest) e0) as [x out] eqn:Hnth.
  assert ((e0 :: rest).*1 ≡ₚ x :: (delete i (e0 :: rest)).*1) as Hids.
  { by rewrite Hperm at 1. }
  assert (x ∈ cur) as Hin.
  { eapply elem_of_submseteq; [|exact Hsub].
    apply elem_of_app. right. rewrite Hids. left. }
  destruct (resume_spec (Post.r_this r) x cur out Hfs Hin)
    as (n0 & Hn0 & _ & Hres).
  rewrite Hres in Hstep. exists x, out. unfold Post.progress, Post.r_pending.
  rewrite Hfl, ids_removed_cons, ids_left_cons. unfold Post.spliced.
  change (Post.ids_removed []) with (@nil FileId).
  change (Post.ids_left []) with (@nil FileId). cbn [fst snd].
  destruct out as [r0|e].
  - destruct (decide (status r0 = "fail")) as [Hfail|Hok];
      injection Hstep as <- <-;
      cbn [Post.r_this Post.r_world Post.r_flight Post.r_settled].
    + exists cur. rewrite bool_decide_eq_false_2 by (by intros []).
      split_and!; try done.
      * by rewrite set_files_same.
      * cbn [app]. by rewrite Hids in Hsub.
      * by intros [? ?].
    + exists (delete n0 cur). rewrite bool_decide_eq_true_2 by done.
      rewrite <-delete_take_drop. split_and!; try done.
      * cbn [app]. by apply delete_Permutation.
      * apply sublist_delete.
      * cbn [app]. apply (submseteq_app_inv_l _ _ [x]). cbn [app].
        rewrite <-(delete_Permutation cur n0 x) by done.
        by rewrite Permutation_middle, <-Hids.
      * by intros [? ?].
  - injection Hstep as <- <-.
    cbn [Post.r_this Post.r_world Post.r_flight Post.r_settled].
    exists cur. split_and!; try done.
    + by rewrite set_files_same.
    + cbn [app]. by rewrite Hids in Hsub.
Qed.

(** The removals that resume between the rejection and the return. *)
Lemma drain_progress (sched : list nat) :
  ∀ (r : Post.Run (World := World)) (cur keep : list FileId),
    Post.files (Post.r_this r) = Some cur →
    keep ++ Post.r_pending r ⊆+ cur →
    ∃ new cur', Post.progress keep cur r new cur' (Post.drain sched r).
Proof.
  induction sched as [|c sched IH]; intros r cur keep Hfs Hsub.
  { exists [], cur. by apply progress_refl. }
  cbn [Post.drain]. destruct (Post.step c r) as [[res r1]|] eqn:Hstep.
  - destruct (step_progress c r r1 res cur keep Hstep Hfs Hsub)
      as (x & out & cur1 & Hp1 & _ & _).
    destruct (progress_files _ _ _ _ _ _ Hp1) as [Hfs1 Hsub1].
    destruct (IH r1 cur1 _ Hfs1 Hsub1) as (new & cur' & Hp2).
    exists ([(x, out)] ++ new), cur'. by eapply progress_trans.
  - exists [], cur. by apply progress_refl.
Qed.

(** A whole run: either every removal has resumed and none threw, or one
    threw, the first to do so being the one whose error is reported. *)
Lemma settle_progress (n : nat) :
  ∀ sched (r r' : Post.Run (World := World)) oe (cur keep : list FileId),
    Post.settle n sched r = (oe, r') →
    Post.files (Post.r_this r) = Some cur →
    keep ++ Post.r_pending r ⊆+ cur →
    (length (Post.r_flight r) ≤ n)%nat →
    ∃ new cur',
      Post.progress keep cur r new cur' r'
      ∧ match oe with
        | None => Post.r_flight r' = [] ∧ Forall (λ en, ¬ Post.threw en) new
        | Some e => ∃ pre x post, new = pre ++ (x, Thrown e) :: post
                      ∧ Forall (λ en, ¬ Post.threw en) pre
        end.
Proof.
  induction n as [|n IH]; intros sched r r' oe cur keep Hs Hfs Hsub Hlen.
  { injection Hs as <- <-. exists [], cur. split; [by apply progress_refl|].
    split; [|done]. destruct (Post.r_flight r); [done | simpl in Hlen; lia]. }
  cbn [Post.settle] in Hs.
  destruct (Post.step (hd 0%nat sched) r) as [[res r1]|] eqn:Hstep.
  - destruct (step_progress _ r r1 res cur keep Hstep Hfs Hsub)
      as (x & out & cur1 & Hp1 & Hres & Hlt).
    destruct (progress_files _ _ _ _ _ _ Hp1) as [Hfs1 Hsub1].
    destruct res as [r0|e].
    + apply (IH _ _ _ _ cur1 (keep ++ Post.ids_left [(x, out)])) in Hs;
        [|done|done|lia].
      destruct Hs as (new & cur' & Hp2 & Hoe).
      exists ([(x, out)] ++ new), cur'. split; [by eapply progress_trans|].
      destruct oe as [e|].
      * destruct Hoe as (pre & y & post & -> & Hpre).
        exists ((x, out) :: pre), y, post. split; [done|]. by constructor.
      * destruct Hoe as [Hnil Hall]. split; [done|]. by constructor.
    + injection Hs as <- <-. subst out.
      destruct (drain_progress (tl sched) r1 cur1 _ Hfs1 Hsub1)
        as (new & cur' & Hp2).
      exists ([(x, Thrown e)] ++ new), cur'.
      split; [by eapply progress_trans|]. by exists [], x, new.
  - injection Hs as <- <-. exists [], cur. split; [by apply progress_refl|].
    split; [|done]. unfold Post.step in Hstep.
    destruct (Post.r_flight r) as [|e0 rest]; [done|]. cbv zeta in Hstep.
    destruct (nth _ _ _). by destruct (Post.removeFileById_resume _ _ _).
Qed.

Lemma deleteAllFiles_settle this fs sched w :
  Post.files this = Some fs →
  ∃ oe, Post.settle (length fs) sched
          (Post.mkRun this (Post.run_deletions fs w).2
             (Post.run_deletions fs w).1 [])
          = (oe, (Post.deleteAllFiles this sched w).2)
    ∧ (Post.deleteAllFiles this sched w).1 = Post.aggregate oe.
Proof.
  intros Hfs. unfold Post.deleteAllFiles. rewrite Hfs, launch_all by done.
  pose proof (run_deletions_ids fs w) as Hids.
  destruct (Post.run_deletions fs w) as [flight w'] eqn:Hrun.
  cbn [fst snd] in *.
  replace (length flight) with (length fs)
    by (by rewrite <-Hids, length_fmap).
  destruct (Post.settle _ _ _) as [[e|] r]; by eexists.
Qed.

(** [deleteAllFiles] on a document holding [fs], under any schedule. *)
Lemma deleteAllFiles_spec this fs sched w :
  Post.files this = Some fs →
  ∃ (oe : option JsError) (cur' : list FileId),
    (Post.deleteAllFiles this sched w).1 = Post.aggregate oe
    ∧ Post.r_this (Post.deleteAllFiles this sched w).2
      = Post.set_files this (Some cur')
    ∧ fs ≡ₚ Post.ids_removed
              (Post.r_settled (Post.deleteAllFiles this sched w).2) ++ cur'
    ∧ cur' `sublist_of` fs
    ∧ Post.ids_left (Post.r_settled (Post.deleteAllFiles this sched w).2)
        ⊆+ cur'
    ∧ fs ≡ₚ (Post.r_settled (Post.deleteAllFiles this sched w).2).*1
            ++ Post.r_pending (Post.deleteAllFiles this sched w).2
    ∧ ((Post.run_deletions fs w).1
         ≡ₚ Post.r_settled (Post.deleteAllFiles this sched w).2
            ++ Post.r_flight (Post.deleteAllFiles this sched w).2
       ∧ Post.r_world (Post.deleteAllFiles this sched w).2
         = (Post.run_deletions fs w).2)
    ∧ match oe with
      | None => Post.r_pending (Post.deleteAllFiles this sched w).2 = []
          ∧ Forall (λ en, ¬ Post.threw en)
              (Post.r_settled (Post.deleteAllFiles this sched w).2)
      | Some e => ∃ pre x post,
          Post.r_settled (Post.deleteAllFiles this sched w).2
            = pre ++ (x, Thrown e) :: post
          ∧ Forall (λ en, ¬ Post.threw en) pre
      end.
Proof.
  intros Hfs. destruct (deleteAllFiles_settle this fs sched w Hfs)
    as (oe & Hs & Hres).
  pose proof (run_deletions_ids fs w) as Hids.
  apply (settle_progress _ _ _ _ _ fs []) in Hs;
    [| done | by cbn; unfold Post.r_pending; cbn; rewrite Hids
     | by cbn; rewrite <-Hids at 2; rewrite length_fmap ].
  destruct Hs as (new & cur' & (Hset & Hthis & Hrem & Hsl & Hkeep & Hfl & Hw)
                  & Hoe).
  cbn [Post.r_this Post.r_world Post.r_flight Post.r_settled app] in *.
  rewrite Hset. exists oe, cur'. split_and!; try done.
  - etrans; [|exact Hkeep]. by apply submseteq_inserts_r.
  - unfold Post.r_pending. by rewrite <-fmap_app, <-Hfl, Hids.
  - destruct oe as [e|]; [done|]. destruct Hoe as [Hnil Hall].
    split; [|done]. unfold Post.r_pending. by rewrite Hnil.
Qed.

Lemma same_but_files_set this (fs : option (list FileId)) :
  Post.same_but_files this (Post.set_files this fs).
Proof. by unfold Post.same_but_files. Qed.

(** C3.  On a document holding the ids [fs], under any schedule: when the
    removal of some file [x] throws, its [deleteAndRemoveById] throwing [e],
    [deleteAllFiles] returns status [fail] with the message of the removal
    that was first to resume with a throw; that is the message of [e]
    whenever no removal throws with another message, so whenever [x] is the
    only one to throw.  Nothing is rolled back: the world is the one the file
    deletions of all the ids, made in the order of [fs], have left; the
    document has lost one occurrence of every id whose removal has resumed
    and spliced, the rest of [fs] is there in its order and nothing else of
    the document has changed; with duplicate-free [fs] none of the ids
    spliced out is in it. *)
Theorem deleteAllFiles_thrown this fs sched w x e :
  Post.files this = Some fs →
  (x, Thrown e) ∈ (Post.run_deletions fs w).1 →
  (∃ x1 e1 pre post,
      Post.r_settled (Post.deleteAllFiles this sched w).2
        = pre ++ (x1, Thrown e1) :: post
      ∧ Forall (λ entry, ¬ Post.threw entry) pre
      ∧ (x1, Thrown e1) ∈ (Post.run_deletions fs w).1
      ∧ (Post.deleteAllFiles this sched w).1 =
          {| status := "fail"; model := None;
             message := Some (e_message e1) |})
  ∧ ((∀ y e', (y, Thrown e') ∈ (Post.run_deletions fs w).1 →
              e_message e' = e_message e) →
     (Post.deleteAllFiles this sched w).1 =
       {| status := "fail"; model := None; message := Some (e_message e) |})
  ∧ Post.r_world (Post.deleteAllFiles this sched w).2
    = (Post.run_deletions fs w).2
  ∧ ∃ cur' : list FileId,
      Post.files (Post.r_this (Post.deleteAllFiles this sched w).2)
        = Some cur'
      ∧ Post.same_but_files this
          (Post.r_this (Post.deleteAllFiles this sched w).2)
      ∧ fs ≡ₚ Post.ids_removed
                (Post.r_settled (Post.deleteAllFiles this sched w).2) ++ cur'
      ∧ cur' `sublist_of` fs
      ∧ (NoDup fs →
         ∀ y, y ∈ Post.ids_removed
                    (Post.r_settled (Post.deleteAllFiles this sched w).2) →
              y ∉ cur').
Proof.
  intros Hfs Hthrown.
  destruct (deleteAllFiles_spec this fs sched w Hfs)
    as (oe & cur' & Hres & Hthis & Hrem & Hsl & _ & _ & [Hout Hw] & Hoe).
  assert (∃ x1 e1 pre post,
            Post.r_settled (Post.deleteAllFiles this sched w).2
              = pre ++ (x1, Thrown e1) :: post
            ∧ Forall (λ entry, ¬ Post.threw entry) pre
            ∧ (x1, Thrown e1) ∈ (Post.run_deletions fs w).1
            ∧ oe = Some e1) as (x1 & e1 & pre & post & Hlog & Hpre & Hin1 & ->).
  { destruct oe as [e1|].
    - destruct Hoe as (pre & x1 & post & Hlog & Hpre).
      exists x1, e1, pre, post. split_and!; try done.
      rewrite Hout, Hlog. apply elem_of_app. left.
      apply elem_of_app. right. left.
    - destruct Hoe as [Hpend Hall]. apply fmap_nil_inv in Hpend.
      rewrite Hpend, app_nil_r in Hout. rewrite Hout in Hthrown.
      rewrite Forall_forall in Hall. destruct (Hall _ Hthrown). by exists e. }
  split; [by exists x1, e1, pre, post|].
  split; [intros Hsame; rewrite Hres; simpl; by rewrite (Hsame x1 e1)|].
  split; [done|]. exists cur'. rewrite Hthis.
  split; [done|]. split; [apply same_but_files_set|].
  split; [done|]. split; [done|].
  intros Hnd. rewrite Hrem in Hnd.
  by apply NoDup_app in Hnd as (_ & Hdisj & _).
Qed.

Lemma left_in_ids_left x (r : Result) log :
  (x, Returned r) ∈ log → status r = "fail" → x ∈ Post.ids_left log.
Proof.
  intros Hin Hst. unfold Post.ids_left.
  apply (list_elem_of_fmap_2 fst _ (x, Returned r)).
  apply list_elem_of_filter. split; [|done].
  unfold Post.spliced. simpl. by rewrite bool_decide_eq_false_2 by (by intros []).
Qed.

(** C4 (as amended).  On a document holding the ids [fs], under any
    completion order: when none of the removals throws, [deleteAllFiles]
    returns [{status: 'success'}] and nothing more, every removal having
    settled, also when some of them returned status [fail]; the ids of those
    are still in the document's [files] sequence. *)
Theorem deleteAllFiles_no_throw this fs sched w :
  Post.files this = Some fs →
  Forall (λ entry, ¬ Post.threw entry)
    (Post.r_settled (Post.deleteAllFiles this sched w).2) →
  (Post.deleteAllFiles this sched w).1 =
    {| status := "success"; model := None; message := None |}
  ∧ Post.r_pending (Post.deleteAllFiles this sched w).2 = []
  ∧ fs ≡ₚ (Post.r_settled (Post.deleteAllFiles this sched w).2).*1
  ∧ ∃ cur' : list FileId,
      Post.r_this (Post.deleteAllFiles this sched w).2
        = Post.set_files this (Some cur')
      ∧ ∀ y r, (y, Returned r)
                 ∈ Post.r_settled (Post.deleteAllFiles this sched w).2 →
               status r = "fail" → y ∈ cur'.
Proof.
  intros Hfs Hquiet.
  destruct (deleteAllFiles_spec this fs sched w Hfs)
    as (oe & cur' & Hres & Hthis & _ & _ & Hleft & Hall & _ & Hoe).
  destruct oe as [e|].
  { destruct Hoe as (pre & y & post & Hlog & _). rewrite Hlog in Hquiet.
    apply Forall_app in Hquiet as [_ Hlast].
    apply Forall_cons in Hlast as [Hlast _].
    exfalso. apply Hlast. by exists e. }
  destruct Hoe as [Hpend _]. rewrite Hpend, app_nil_r in Hall.
  split_and!; try done. exists cur'. split; [done|].
  intros y r Hin Hst. eapply elem_of_submseteq; [|exact Hleft].
  by eapply left_in_ids_left.
Qed.

End DeleteAll.

Lemma deleteAllFiles_thrown_witness :
  (Post.deleteAllFiles (FileModel0 := flaky_model) post_abd
     [0; 0; 0]%nat []).1 =
    {| status := "fail"; model := None;
       message := Some "EACCES: permission denied" |}
  ∧ Post.r_world
      (Post.deleteAllFiles (FileModel0 := flaky_model) post_abd
         [0; 0; 0]%nat []).2
    = (Post.run_deletions (FileModel0 := flaky_model) ["a"; "b"; "d"] []).2
  ∧ Post.files
      (Post.r_this
         (Post.deleteAllFiles (FileModel0 := flaky_model) post_abd
            [0; 0; 0]%nat []).2)
    = Some ["b"].
Proof.
  assert (("b", Thrown (mkError "EACCES: permission denied"))
            ∈ (Post.run_deletions (FileModel0 := flaky_model)
                 ["a"; "b"; "d"] []).1) as Hthrown.
  { vm_compute. apply list_elem_of_further, list_elem_of_here. }
  destruct (deleteAllFiles_thrown (FileModel0 := flaky_model) post_abd
              ["a"; "b"; "d"] [0; 0; 0]%nat [] "b"
              (mkError "EACCES: permission denied") eq_refl Hthrown)
    as (_ & Hres & Hworld & _).
  split; [|split; [exact Hworld | reflexivity]].
  apply Hres. intros y e' Hin. vm_compute in Hin.
  apply elem_of_cons in Hin as [Hin|Hin]; [discriminate Hin|].
  apply elem_of_cons in Hin as [Hin|Hin]; [by injection Hin as _ <-|].
  apply elem_of_cons in Hin as [Hin|Hin]; [discriminate Hin|].
  by apply elem_of_nil in Hin.
Defined.

(** The same run seen whole: the three deletions are made up front, the one
    of ["b"] throwing; ["a"] resumes, ["b"] rejects, and ["d"] still resumes
    before the method returns.  With an empty schedule the method returns
    right at the rejection, ["d"] still in flight in the document though its
    file is deleted. *)
Lemma deleteAllFiles_thrown_runs :
  Post.files
      (Post.r_this
         (Post.deleteAllFiles (FileModel0 := flaky_model) post_abd
            [0; 0; 0]%nat []).2) = Some ["b"]
  ∧ Post.r_world
      (Post.deleteAllFiles (FileModel0 := flaky_model) post_abd
         [0; 0; 0]%nat []).2 = ["d"; "a"]
  ∧ Post.files
      (Post.r_this
         (Post.deleteAllFiles (FileModel0 := flaky_model) post_abd [] []).2)
    = Some ["b"; "d"]
  ∧ Post.r_pending
      (Post.deleteAllFiles (FileModel0 := flaky_model) post_abd [] []).2
    = ["d"]
  ∧ Post.r_world
      (Post.deleteAllFiles (FileModel0 := flaky_model) post_abd [] []).2
    = ["d"; "a"].
Proof. repeat split. Qed.

Lemma deleteAllFiles_no_throw_witness :
  (Post.deleteAllFiles (FileModel0 := flaky_model) post_ac [1%nat] []).1 =
    {| status := "success"; model := None; message := None |}
  ∧ Post.r_pending
      (Post.deleteAllFiles (FileModel0 := flaky_model) post_ac [1%nat] []).2
    = []
  ∧ ["a"; "c"] ≡ₚ
      (Post.r_settled
         (Post.deleteAllFiles (FileModel0 := flaky_model) post_ac [1%nat] []).2).*1
  ∧ ∃ cur' : list FileId,
      Post.r_this
        (Post.deleteAllFiles (FileModel0 := flaky_model) post_ac [1%nat] []).2
        = Post.set_files post_ac (Some cur')
      ∧ ∀ y r, (y, Returned r)
                 ∈ Post.r_settled
                     (Post.deleteAllFiles (FileModel0 := flaky_model)
                        post_ac [1%nat] []).2 →
               status r = "fail" → y ∈ cur'.
Proof.
  apply (deleteAllFiles_no_throw (FileModel0 := flaky_model) post_ac
           ["a"; "c"] [1%nat] []).
  - reflexivity.
  - vm_compute. repeat constructor; intros [e He]; discriminate He.
Defined.

(** C4 as stated fails: on a document without a [files] property no removal
    runs, let alone throws, and [deleteAllFiles] returns status [fail]. *)
Lemma deleteAllFiles_bare_fails :
  Post.files bare_post = None
  ∧ Post.r_settled (Post.deleteAllFiles bare_post [] sample_world).2 = []
  ∧ status (Post.deleteAllFiles bare_post [] sample_world).1 = "fail"
  ∧ message (Post.deleteAllFiles bare_post [] sample_world).1
    = Some "Cannot read properties of undefined (reading 'map')".
Proof. repeat split. Qed.

(** ** The round trip through the commit protocol *)




(** The round trip at work on two sample documents: the one that owns two
    files is back as it was; the one without a [files] property ends with
    the empty sequence. *)
Lemma add_then_remove_runs :
  add_then_remove sample_post sample_upload "u1" sample_world
    = Some (sample_post,
            {| Commit.staged := ∅;
               Commit.store := Commit.store sample_world;
               Commit.records := Commit.records sample_world |})
  ∧ fst <$> add_then_remove bare_post sample_upload "u1" sample_world
    = Some (Post.set_files bare_post (Some [])).
Proof. split; vm_compute; reflexivity. Qed.


(** ** The upload middleware *)

Section Collapse.
Context {Storage Filters Limits : Type}.

(** Assigning the descriptors in turn: under each field name the last
    descriptor bearing it wins. *)
Lemma collapse_fold_lookup (l : list MulterFile)
    (files : gmap string MulterFile) (k : string) :
  foldl (λ files file, <[fieldname file := file]> files) files l !! k =
    match last (filter (λ file, fieldname file = k) l) with
    | Some file => Some file
    | None => files !! k
    end.
Proof.
  revert files. induction l as [|file l IH]; intros files; [done|].
  cbn [foldl]. rewrite IH.
  destruct (decide (fieldname file = k)) as [Hk|Hk].
  - rewrite filter_cons_True, last_cons by done.
    destruct (last (filter _ l)); [done|]. by rewrite Hk, lookup_insert_eq.
  - rewrite filter_cons_False by done.
    destruct (last (filter _ l)); [done|]. by rewrite lookup_insert_ne.
Qed.

(** The own properties after the assignments are those the descriptors not
    named [__proto__] leave. *)
Lemma collapse_own (l : list MulterFile) (files : Middleware.JsObject) :
  Middleware.own (foldl Middleware.assign files l) =
    foldl (λ files file, <[fieldname file := file]> files)
      (Middleware.own files)
      (filter (λ file, fieldname file ≠ "__proto__") l).
Proof.
  revert files. induction l as [|file l IH]; intros files; [done|].
  cbn [foldl]. rewrite IH. unfold Middleware.assign.
  destruct (decide (fieldname file = "__proto__")) as [Hk|Hk].
  - by rewrite filter_cons_False by (by intros ?).
  - by rewrite filter_cons_True by done.
Qed.

(** The prototype after the assignments is the last descriptor named
    [__proto__]. *)
Lemma collapse_proto (l : list MulterFile) (files : Middleware.JsObject) :
  Middleware.proto (foldl Middleware.assign files l) =
    match last (filter (λ file, fieldname file = "__proto__") l) with
    | Some file => Middleware.Descriptor file
    | None => Middleware.proto files
    end.
Proof.
  revert files. induction l as [|file l IH]; intros files; [done|].
  cbn [foldl]. rewrite IH. unfold Middleware.assign.
  destruct (decide (fieldname file = "__proto__")) as [Hk|Hk].
  - rewrite filter_cons_True, last_cons by done.
    by destruct (last (filter _ l)).
  - rewrite filter_cons_False by done. by destruct (last (filter _ l)).
Qed.

Lemma filter_named (l : list MulterFile) (k : string) :
  k ≠ "__proto__" →
  filter (λ file, fieldname file = k)
    (filter (λ file, fieldname file ≠ "__proto__") l)
  = filter (λ file, fieldname file = k) l.
Proof.
  intros Hk. induction l as [|file l IH]; [done|].
  destruct (decide (fieldname file = k)) as [Hf|Hf].
  - rewrite (filter_cons_True (λ file, fieldname file ≠ "__proto__"))
      by congruence.
    rewrite !filter_cons_True by done. by rewrite IH.
  - rewrite (filter_cons_False (λ file, fieldname file = k) file l) by done.
    destruct (decide (fieldname file = "__proto__")) as [Hp|Hp].
    + by rewrite filter_cons_False by (by intros ?).
    + rewrite filter_cons_True by done. by rewrite filter_cons_False.
Qed.

Lemma filter_named_proto (l : list MulterFile) :
  filter (λ file, fieldname file = "__proto__")
    (filter (λ file, fieldname file ≠ "__proto__") l) = [].
Proof.
  induction l as [|file l IH]; [done|].
  destruct (decide (fieldname file = "__proto__")) as [Hp|Hp].
  - by rewrite filter_cons_False by (by intros ?).
  - rewrite filter_cons_True by done. by rewrite filter_cons_False.
Qed.

(** What the collapse of an array leaves among the own properties. *)
Lemma collapse_own_lookup (l : list MulterFile) (k : string) :
  Middleware.own (foldl Middleware.assign Middleware.empty_object l) !! k =
    if decide (k = "__proto__") then None
    else last (filter (λ file, fieldname file = k) l).
Proof.
  rewrite collapse_own, collapse_fold_lookup. cbn [Middleware.own
    Middleware.empty_object]. rewrite lookup_empty.
  destruct (decide (k = "__proto__")) as [->|Hk].
  - by rewrite filter_named_proto.
  - rewrite filter_named by done. by destruct (last _).
Qed.

(** C10.  With no [fields] option the middleware builds multer's [any()]
    uploader, which takes the file parts of every field into an array.  The
    object it hands on as [req.files] has, under every field name but
    [__proto__], the descriptor of the last part that came under that name,
    and no other property of its own: its keys are the field names of the
    parts less [__proto__].  A part named [__proto__] is not stored under
    its name: the last such part becomes the prototype of the object, which
    is [Object.prototype] otherwise. *)
Theorem middleware_any (storage : Storage) (filters : option Filters)
    (limits : option Limits) (parts : list MulterFile) :
  Middleware.uploader storage (Middleware.mkMwOpts filters limits None)
    = Middleware.upload_any (Middleware.mkUploadOptions storage filters limits)
  ∧ Middleware.multer
      (Middleware.uploader storage (Middleware.mkMwOpts filters limits None))
      (Middleware.Multipart parts) = Middleware.FilesArray parts
  ∧ ∃ files : Middleware.JsObject,
      Middleware.req_files storage (Middleware.mkMwOpts filters limits None)
        (Middleware.Multipart parts) = Returned files
      ∧ Middleware.middleware storage
          (Middleware.mkMwOpts filters limits None) parts
        = Returned (Middleware.own files)
      ∧ (∀ k, k ≠ "__proto__" →
           Middleware.own files !! k
           = last (filter (λ file, fieldname file = k) parts))
      ∧ Middleware.own files !! "__proto__" = None
      ∧ dom (Middleware.own files)
        = list_to_set (fieldname <$> parts) ∖ {["__proto__"]}
      ∧ Middleware.proto files =
          match last (filter (λ file, fieldname file = "__proto__") parts)
          with
          | Some file => Middleware.Descriptor file
          | None => Middleware.ObjectPrototype
          end
      ∧ (∀ k, Middleware.get files k =
           if decide (k = "__proto__") then Middleware.Via (Middleware.proto files)
           else match last (filter (λ file, fieldname file = k) parts) with
                | Some file => Middleware.Own file
                | None => Middleware.Via (Middleware.proto files)
                end).
Proof.
  split; [done|]. split; [done|].
  exists (foldl Middleware.assign Middleware.empty_object parts).
  split; [done|]. split; [done|].
  split.
  { intros k Hk. by rewrite collapse_own_lookup, decide_False. }
  split; [by rewrite collapse_own_lookup|].
  split.
  { apply set_eq. intros k.
    rewrite elem_of_dom, collapse_own_lookup, elem_of_difference,
      elem_of_list_to_set, list_elem_of_fmap, elem_of_singleton.
    destruct (decide (k = "__proto__")) as [->|Hk].
    { split; [by intros [? ?] | by intros [_ []]]. }
    split.
    - intros [file Hlast]. apply last_Some in Hlast as [l' Hl'].
      assert (file ∈ filter (λ file, fieldname file = k) parts) as Hin.
      { rewrite Hl'. apply elem_of_app. right. left. }
      apply list_elem_of_filter in Hin as [Hf Hin]. split; [|done].
      by exists file.
    - intros [(file & -> & Hin) _].
      assert (file ∈ filter (λ f, fieldname f = fieldname file) parts) as Hf.
      { by apply list_elem_of_filter. }
      destruct (filter _ parts) as [|a l'] using rev_ind.
      + by apply elem_of_nil in Hf.
      + rewrite last_snoc. by eexists. }
  split; [by rewrite collapse_proto|].
  intros k. unfold Middleware.get. rewrite collapse_own_lookup.
  destruct (decide (k = "__proto__")); [done|]. by destruct (last _).
Qed.

(** A request that is not multipart: multer leaves [req.files] unset and
    the callback throws on [req.files.map], with or without a [fields]
    option; [next()] is not reached. *)
Lemma req_files_not_multipart (storage : Storage)
    (opts : Middleware.MwOpts (Filters := Filters) (Limits := Limits)) :
  Middleware.req_files storage opts Middleware.NotMultipart
    = Thrown (TypeError_reading "map").
Proof. unfold Middleware.req_files. by destruct (Middleware.uploader _ _). Qed.

End Collapse.

(** Two files under the same field name: the second one is kept. *)
Lemma middleware_any_twice :
  Middleware.middleware (Filters := unit) (Limits := unit) tt
    (Middleware.mkMwOpts None None None)
    [ sample_upload; mkMulterFile "avatar" "you.png" "image/png" "tmp/2" 4 ]
  = Returned
      {[ "avatar" := mkMulterFile "avatar" "you.png" "image/png" "tmp/2" 4 ]}.
Proof. vm_compute. reflexivity. Qed.

(** C10 fails on a file part named [__proto__]: a request with such a part
    and one named [avatar] gives a mapping with the one key [avatar]; the
    other descriptor is not stored under its field name, it has become the
    prototype of [req.files], so that reading [req.files.fieldname] gives
    the string of that descriptor although no file came under the name
    [fieldname].  And with nothing uploaded at all, a name such as
    [toString] is answered by [Object.prototype]. *)
Lemma middleware_any_proto :
  Middleware.req_files (Filters := unit) (Limits := unit) tt
    (Middleware.mkMwOpts None None None)
    (Middleware.Multipart [ proto_upload; sample_upload ])
  = Returned {| Middleware.own := {[ "avatar" := sample_upload ]};
                Middleware.proto := Middleware.Descriptor proto_upload |}
  ∧ Middleware.middleware (Filters := unit) (Limits := unit) tt
      (Middleware.mkMwOpts None None None) [ proto_upload; sample_upload ]
    = Returned {[ "avatar" := sample_upload ]}
  ∧ fieldname proto_upload = "__proto__"
  ∧ ({[ "avatar" := sample_upload ]} : gmap string MulterFile)
      !! fieldname proto_upload = None
  ∧ Middleware.get
      {| Middleware.own := {[ "avatar" := sample_upload ]};
         Middleware.proto := Middleware.Descriptor proto_upload |}
      "fieldname" = Middleware.Via (Middleware.Descriptor proto_upload)
  ∧ Middleware.req_files (Filters := unit) (Limits := unit) tt
      (Middleware.mkMwOpts None None None) (Middleware.Multipart [])
    = Returned Middleware.empty_object
  ∧ Middleware.get Middleware.empty_object "toString"
    = Middleware.Via Middleware.ObjectPrototype.
Proof. split_and!; vm_compute; reflexivity. Qed.

(** * Further properties *)

(** ** The constructors *)

(** X1.  Whatever the options, a manager never ends up with a zero expiry, a
    zero sweep period or an empty directory name: [||] replaces the falsy
    value by the default; so an expiry configured as [0] is five hours in
    part_001 and five seconds in the NodeJWT version. *)
Theorem constructor_never_falsy (opts : Opts) (interval : option Z)
    (tmp dst : option string) :
  clearTmpTime (MulterManager.constructor opts) ≠ 0
  ∧ clearTmpIntervalTime (MulterManager.constructor opts) ≠ 0
  ∧ tmpDir (MulterManager.constructor opts) ≠ EmptyString
  ∧ dstDir (MulterManager.constructor opts) ≠ EmptyString
  ∧ clearTmpTime (NodeJWT.constructor opts) ≠ 0
  ∧ clearTmpIntervalTime (NodeJWT.constructor opts) ≠ 0
  ∧ tmpDir (NodeJWT.constructor opts) ≠ EmptyString
  ∧ dstDir (NodeJWT.constructor opts) ≠ EmptyString
  ∧ clearTmpTime (MulterManager.constructor (mkOpts (Some 0) interval tmp dst))
    = 5 * hour
  ∧ clearTmpTime (NodeJWT.constructor (mkOpts (Some 0) interval tmp dst))
    = 5 * second.
Proof.
  assert (∀ o d, d ≠ 0 → or_num o d ≠ 0) as Hnum.
  { intros [v|] d Hd; simpl; [by case_decide | done]. }
  assert (∀ o d, d ≠ EmptyString → or_str o d ≠ EmptyString) as Hstr.
  { intros [v|] d Hd; simpl; [by case_decide | done]. }
  split_and!; try (by apply Hnum); try (by apply Hstr); reflexivity.
Qed.

(** ** Sweeps *)

Lemma kept_Some expiry force date (o : option Stats) (stats : Stats) :
  o ≫= kept expiry force date = Some stats →
  o = Some stats
  ∧ (isDirectory stats = false
     ∨ force = false ∧ date - birthtimeMs stats < expiry).
Proof.
  destruct o as [st|]; [|done]. simpl. unfold kept.
  destruct (isDirectory st) eqn:Hdir; simpl.
  - destruct force; simpl; [done|]. case_bool_decide; [done|].
    intros [= <-]. split; [done|]. right. split; [done|lia].
  - intros [= <-]. split; [done|]. by left.
Qed.

(** X2.  A sweep only deletes: what it leaves is part of what was there,
    every surviving entry with the stats it had. *)
Theorem sweep_subseteq (this : Manager) (force : bool) (date : Z)
    (fs : Staging) :
  MulterManager._clearTemp this force date fs ⊆ fs
  ∧ NodeJWT.clearTemp this force date fs ⊆ fs.
Proof.
  split; apply map_subseteq_spec; intros k stats.
  - rewrite _clearTemp_lookup. by intros [? _]%kept_Some.
  - rewrite clearTemp_lookup. by intros [? _]%kept_Some.
Qed.

Lemma sweep_twice_lookup expiry (f1 f2 : bool) (d1 d2 : Z) (o : option Stats) :
  (f1 = true → f2 = true) → (f2 = false → d1 ≤ d2) →
  (o ≫= kept expiry f1 d1) ≫= kept expiry f2 d2 = o ≫= kept expiry f2 d2.
Proof.
  intros Hf Hd. destruct o as [stats|]; [|done]. cbn [mbind option_bind].
  unfold kept.
  destruct (isDirectory stats) eqn:Hdir; cbn [andb];
    [|by cbn [mbind option_bind]; rewrite Hdir].
  destruct f1; cbn [orb mbind option_bind].
  - by rewrite (Hf eq_refl).
  - case_bool_decide as H1; cbn [mbind option_bind].
    + destruct f2; [done|]. cbn [orb].
      rewrite bool_decide_eq_true_2; [done|]. specialize (Hd eq_refl). lia.
    + by rewrite Hdir.
Qed.

(** X3.  Sweeps that are not forced compose along time: sweeping at [date1]
    and again at a later [date2] leaves what one sweep at [date2] leaves; in
    particular a second sweep at the same time changes nothing. *)
Theorem sweep_again_later (this : Manager) (date1 date2 : Z) (fs : Staging) :
  date1 ≤ date2 →
  MulterManager._clearTemp this false date2
      (MulterManager._clearTemp this false date1 fs)
    = MulterManager._clearTemp this false date2 fs
  ∧ NodeJWT.clearTemp this false date2 (NodeJWT.clearTemp this false date1 fs)
    = NodeJWT.clearTemp this false date2 fs.
Proof.
  intros Hd. split; apply map_eq; intros k.
  - rewrite !_clearTemp_lookup. by apply sweep_twice_lookup.
  - rewrite !clearTemp_lookup. by apply sweep_twice_lookup.
Qed.

Lemma sweep_again_later_witness :
  MulterManager._clearTemp (MulterManager.constructor no_opts) false 40000000
      (MulterManager._clearTemp (MulterManager.constructor no_opts) false
         20000000 sample_dir)
    = MulterManager._clearTemp (MulterManager.constructor no_opts) false
        40000000 sample_dir
  ∧ NodeJWT.clearTemp (MulterManager.constructor no_opts) false 40000000
      (NodeJWT.clearTemp (MulterManager.constructor no_opts) false 20000000
         sample_dir)
    = NodeJWT.clearTemp (MulterManager.constructor no_opts) false 40000000
        sample_dir.
Proof.
  apply (sweep_again_later (MulterManager.constructor no_opts) 20000000
           40000000 sample_dir).
  vm_compute. discriminate.
Defined.

(** X4.  A forced sweep absorbs the sweeps around it: forced after any sweep
    is the forced sweep alone, any sweep after a forced one finds nothing
    more to delete, and what a forced sweep leaves depends neither on the
    time nor on the configured expiry. *)
Theorem sweep_forced_absorbs (this this' : Manager) (force : bool)
    (date date' : Z) (fs : Staging) :
  MulterManager._clearTemp this true date'
      (MulterManager._clearTemp this force date fs)
    = MulterManager._clearTemp this true date' fs
  ∧ MulterManager._clearTemp this force date'
      (MulterManager._clearTemp this true date fs)
    = MulterManager._clearTemp this true date fs
  ∧ MulterManager._clearTemp this true date fs
    = MulterManager._clearTemp this' true date' fs.
Proof.
  split_and!; apply map_eq; intros k; rewrite !_clearTemp_lookup.
  - by apply sweep_twice_lookup.
  - destruct (fs !! k) as [stats|]; [|done]. cbn [mbind option_bind].
    unfold kept.
    destruct (isDirectory stats) eqn:Hdir; cbn [andb orb mbind option_bind];
      [done | by rewrite Hdir].
  - destruct (fs !! k) as [stats|]; [|done]. cbn [mbind option_bind].
    unfold kept. by destruct (isDirectory stats).
Qed.

(** ** The life of the sweep interval (part_001) *)

Section Lifecycle.
Variable this : Manager.
Implicit Types (p : MulterManager.Process) (c : MulterManager.Call).

(** A call only sweeps the directory, if it touches it at all. *)
Lemma call_fs_lookup p c (k : string) :
  MulterManager.p_fs (MulterManager.call this p c) !! k
    = MulterManager.p_fs p !! k
  ∨ ∃ force date,
      MulterManager.p_fs (MulterManager.call this p c) !! k
        = MulterManager.p_fs p !! k ≫= kept (clearTmpTime this) force date.
Proof.
  destruct c as [date|date|h date]; simpl.
  - right. exists true, date. apply _clearTemp_lookup.
  - right. exists true, date.
    unfold MulterManager.stopClearInterval, MulterManager.clearInterval.
    simpl. destruct (MulterManager.p_clearTmpInterval p); apply _clearTemp_lookup.
  - unfold MulterManager.tick.
    destruct (MulterManager.p_intervals p !! h); [|by left].
    right. exists false, date. apply _clearTemp_lookup.
Qed.



(** What [stopClearInterval] does to the intervals and the handle. *)
Lemma stop_fields (date : Z) p :
  MulterManager.p_clearTmpInterval (MulterManager.stopClearInterval this date p)
    = MulterManager.p_clearTmpInterval p
  ∧ MulterManager.p_next (MulterManager.stopClearInterval this date p)
    = MulterManager.p_next p
  ∧ MulterManager.p_intervals (MulterManager.stopClearInterval this date p)
    = match MulterManager.p_clearTmpInterval p with
      | Some h => delete h (MulterManager.p_intervals p)
      | None => MulterManager.p_intervals p
      end.
Proof.
  unfold MulterManager.stopClearInterval, MulterManager.clearInterval.
  simpl. by destruct (MulterManager.p_clearTmpInterval p) eqn:E; simpl;
    rewrite ?E.
Qed.

(** An interval whose handle the manager no longer holds keeps running
    through every later call. *)
Lemma orphan_interval_stays (cs : list MulterManager.Call) p (h : nat)
    (ms : Z) :
  MulterManager.p_intervals p !! h = Some ms →
  MulterManager.p_clearTmpInterval p ≠ Some h →
  (h < MulterManager.p_next p)%nat →
  MulterManager.p_intervals (MulterManager.calls this cs p) !! h = Some ms.
Proof.
  revert p. induction cs as [|c cs IH]; intros p Hrun Hlost Hlt; [done|].
  unfold MulterManager.calls in *. cbn [foldl].
  destruct c as [date|date|h' date]; apply IH; cbn [MulterManager.call].
  - simpl. rewrite lookup_insert_ne by lia. done.
  - simpl. intros [= Heq]. lia.
  - simpl. lia.
  - destruct (stop_fields date p) as (_ & _ & ->).
    destruct (MulterManager.p_clearTmpInterval p) as [h0|] eqn:E; [|done].
    rewrite lookup_delete_ne by congruence. done.
  - by destruct (stop_fields date p) as (-> & _ & _).
  - by destruct (stop_fields date p) as (_ & -> & _).
  - unfold MulterManager.tick.
    by destruct (MulterManager.p_intervals p !! h').
  - unfold MulterManager.tick.
    by destruct (MulterManager.p_intervals p !! h').
  - unfold MulterManager.tick.
    by destruct (MulterManager.p_intervals p !! h').
Qed.

(** X6.  A second [startClearInterval] overwrites the handle of the first
    interval, which then keeps running whatever is called afterwards:
    [stopClearInterval] only ever clears the latest one. *)
Theorem second_start_leaks (date1 date2 : Z) (cs : list MulterManager.Call)
    (fs : Staging) :
  MulterManager.p_intervals
      (MulterManager.calls this
         (MulterManager.Start date1 :: MulterManager.Start date2 :: cs)
         (MulterManager.fresh_process fs)) !! 0%nat
    = Some (clearTmpIntervalTime this).
Proof.
  unfold MulterManager.calls. cbn [foldl].
  apply orphan_interval_stays; simpl; [|done|lia].
  by rewrite lookup_insert_ne, lookup_insert_eq by lia.
Qed.

(** X7.  Through any history of starts, stops and firings the manager only
    ever deletes from the staging directory, and it never deletes an entry
    that is not a directory. *)
Theorem history_keeps_files (cs : list MulterManager.Call) p (k : string)
    (stats : Stats) :
  MulterManager.p_fs p !! k = Some stats →
  isDirectory stats = false →
  MulterManager.p_fs (MulterManager.calls this cs p) !! k = Some stats
  ∧ MulterManager.p_fs (MulterManager.calls this cs p) ⊆ MulterManager.p_fs p.
Proof.
  intros Hk Hdir. split.
  - revert p Hk. induction cs as [|c cs IH]; intros p Hk; [done|].
    unfold MulterManager.calls in *. cbn [foldl]. apply IH.
    destruct (call_fs_lookup p c k) as [->|(force & date & ->)]; [done|].
    rewrite Hk. simpl. unfold kept. by rewrite Hdir.
  - clear Hk. revert p. induction cs as [|c cs IH]; intros p; [done|].
    unfold MulterManager.calls in *. cbn [foldl].
    etrans; [apply IH|]. apply map_subseteq_spec. intros k' st.
    destruct (call_fs_lookup p c k') as [->|(force & date & ->)]; [done|].
    by intros [? _]%kept_Some.
Qed.

End Lifecycle.

Lemma history_keeps_files_witness :
  MulterManager.p_fs
      (MulterManager.calls (MulterManager.constructor no_opts)
         [MulterManager.Start 20000000; MulterManager.Tick 0 30000000;
          MulterManager.Stop 40000000]
         (MulterManager.fresh_process sample_dir)) !! "notes.txt"
    = Some (mkStats false 0)
  ∧ MulterManager.p_fs
      (MulterManager.calls (MulterManager.constructor no_opts)
         [MulterManager.Start 20000000; MulterManager.Tick 0 30000000;
          MulterManager.Stop 40000000]
         (MulterManager.fresh_process sample_dir))
    ⊆ MulterManager.p_fs (MulterManager.fresh_process sample_dir).
Proof.
  apply (history_keeps_files (MulterManager.constructor no_opts)
           [MulterManager.Start 20000000; MulterManager.Tick 0 30000000;
            MulterManager.Stop 40000000]
           (MulterManager.fresh_process sample_dir) "notes.txt"
           (mkStats false 0)); reflexivity.
Defined.

(** ** More on the upload middleware *)

Section CollapseMore.
Context {Storage Filters Limits : Type}.

Lemma collapse_size_le (l : list MulterFile) (m : gmap string MulterFile) :
  (base.size (foldl (λ files file, <[fieldname file := file]> files) m l)
   ≤ base.size m + length l)%nat.
Proof.
  revert m. induction l as [|a l IH]; intros m; cbn [foldl length]; [lia|].
  etrans; [apply IH|]. rewrite map_size_insert.
  destruct (m !! fieldname a); simpl; lia.
Qed.

(** X9.  Without a [fields] option, what the middleware hands on is made of
    the uploaded descriptors only, each stored under its own field name, and
    it never holds more entries than files were uploaded. *)
Theorem middleware_any_sound (storage : Storage) (filters : option Filters)
    (limits : option Limits) (parts : list MulterFile)
    (files : gmap string MulterFile) :
  Middleware.middleware storage (Middleware.mkMwOpts filters limits None) parts
    = Returned files →
  (∀ k file, files !! k = Some file → fieldname file = k ∧ file ∈ parts)
  ∧ (base.size files ≤ length parts)%nat.
Proof.
  intros [= <-]. split.
  - intros k file. rewrite collapse_own_lookup.
    destruct (decide (k = "__proto__")); [done|].
    intros Hlast. apply last_Some in Hlast as [l' Hl'].
    assert (file ∈ filter (λ file, fieldname file = k) parts) as Hin.
    { rewrite Hl'. apply elem_of_app. right. left. }
    by apply list_elem_of_filter in Hin.
  - rewrite collapse_own. etrans; [apply collapse_size_le|].
    cbn [Middleware.own Middleware.empty_object]. rewrite map_size_empty.
    apply length_filter.
Qed.

Lemma collapse_distinct_lookup (l : list MulterFile)
    (m : gmap string MulterFile) (file : MulterFile) :
  NoDup (fieldname <$> l) → file ∈ l →
  foldl (λ files file, <[fieldname file := file]> files) m l
    !! fieldname file = Some file.
Proof.
  revert m. induction l as [|a l IH]; intros m Hnd Hin.
  - by apply elem_of_nil in Hin.
  - rewrite fmap_cons in Hnd. apply NoDup_cons in Hnd as [Ha Hnd].
    cbn [foldl]. apply elem_of_cons in Hin as [->|Hin]; [|by apply IH].
    rewrite collapse_fold_lookup.
    destruct (last _) as [f|] eqn:Hlast; [|by rewrite lookup_insert_eq].
    apply last_Some in Hlast as [l' Hl'].
    assert (f ∈ filter (λ file, fieldname file = fieldname a) l) as Hf.
    { rewrite Hl'. apply elem_of_app. right. left. }
    apply list_elem_of_filter in Hf as [Hk Hf]. destruct Ha.
    rewrite <-Hk. by apply list_elem_of_fmap_2.
Qed.

Lemma collapse_distinct_size (l : list MulterFile)
    (m : gmap string MulterFile) :
  NoDup (fieldname <$> l) →
  (∀ file, file ∈ l → m !! fieldname file = None) →
  base.size (foldl (λ files file, <[fieldname file := file]> files) m l)
    = (base.size m + length l)%nat.
Proof.
  revert m. induction l as [|a l IH]; intros m Hnd Hfree;
    cbn [foldl length]; [lia|].
  rewrite fmap_cons in Hnd. apply NoDup_cons in Hnd as [Ha Hnd].
  rewrite IH; [| done |].
  - rewrite map_size_insert_None; [lia|]. apply Hfree. left.
  - intros file Hin. rewrite lookup_insert_ne; [apply Hfree; by right|].
    intros Heq. destruct Ha. rewrite Heq. by apply list_elem_of_fmap_2.
Qed.

(** X10.  Without a [fields] option and with every uploaded file under a
    field name of its own, no file is lost but one named [__proto__]: each
    descriptor under another name is found under its field name, nothing is
    found under [__proto__], and there are as many entries as files under
    other names, so as many as files when none is named [__proto__]. *)
Theorem middleware_any_distinct (storage : Storage)
    (filters : option Filters) (limits : option Limits)
    (parts : list MulterFile) (files : gmap string MulterFile) :
  NoDup (fieldname <$> parts) →
  Middleware.middleware storage (Middleware.mkMwOpts filters limits None) parts
    = Returned files →
  (∀ file, file ∈ parts → fieldname file ≠ "__proto__" →
     files !! fieldname file = Some file)
  ∧ files !! "__proto__" = None
  ∧ base.size files
    = length (filter (λ file, fieldname file ≠ "__proto__") parts)
  ∧ ("__proto__" ∉ fieldname <$> parts → base.size files = length parts).
Proof.
  intros Hnd [= <-].
  assert (NoDup (fieldname <$>
                   filter (λ file, fieldname file ≠ "__proto__") parts))
    as Hnd'.
  { eapply sublist_NoDup; [exact Hnd|].
    apply fmap_sublist, sublist_filter. }
  assert (base.size
            (Middleware.own (foldl Middleware.assign Middleware.empty_object
                               parts))
          = length (filter (λ file, fieldname file ≠ "__proto__") parts))
    as Hsize.
  { rewrite collapse_own, collapse_distinct_size by done.
    cbn [Middleware.own Middleware.empty_object].
    by rewrite map_size_empty. }
  split; [|split; [|split]].
  - intros file Hin Hname. rewrite collapse_own.
    apply collapse_distinct_lookup; [done|]. by apply list_elem_of_filter.
  - by rewrite collapse_own_lookup.
  - exact Hsize.
  - intros Hnone. rewrite Hsize. f_equal.
    clear Hnd Hnd' Hsize. induction parts as [|file l IH]; [done|].
    rewrite fmap_cons, not_elem_of_cons in Hnone. destruct Hnone as [Hf Hl].
    rewrite filter_cons_True by done. f_equal. by apply IH.
Qed.

End CollapseMore.

Lemma middleware_any_sound_witness :
  (∀ k file,
     ({[ "avatar" := mkMulterFile "avatar" "you.png" "image/png" "tmp/2" 4 ]}
        : gmap string MulterFile) !! k = Some file →
     fieldname file = k
     ∧ file ∈ [ sample_upload;
                mkMulterFile "avatar" "you.png" "image/png" "tmp/2" 4 ])
  ∧ (base.size
       ({[ "avatar" := mkMulterFile "avatar" "you.png" "image/png" "tmp/2" 4 ]}
          : gmap string MulterFile) ≤ 2)%nat.
Proof.
  apply (middleware_any_sound (Filters := unit) (Limits := unit) tt None None
           [ sample_upload;
             mkMulterFile "avatar" "you.png" "image/png" "tmp/2" 4 ]).
  vm_compute. reflexivity.
Defined.

Lemma middleware_any_distinct_witness :
  (∀ file,
     file ∈ [ sample_upload; proto_upload;
              mkMulterFile "cover" "sea.png" "image/png" "tmp/2" 4 ] →
     fieldname file ≠ "__proto__" →
     ({[ "avatar" := sample_upload;
         "cover" := mkMulterFile "cover" "sea.png" "image/png" "tmp/2" 4 ]}
        : gmap string MulterFile) !! fieldname file = Some file)
  ∧ ({[ "avatar" := sample_upload;
        "cover" := mkMulterFile "cover" "sea.png" "image/png" "tmp/2" 4 ]}
       : gmap string MulterFile) !! "__proto__" = None
  ∧ base.size
      ({[ "avatar" := sample_upload;
          "cover" := mkMulterFile "cover" "sea.png" "image/png" "tmp/2" 4 ]}
         : gmap string MulterFile)
    = length
        (filter (λ file, fieldname file ≠ "__proto__")
           [ sample_upload; proto_upload;
             mkMulterFile "cover" "sea.png" "image/png" "tmp/2" 4 ])
  ∧ ("__proto__" ∉
       fieldname <$> [ sample_upload; proto_upload;
                       mkMulterFile "cover" "sea.png" "image/png" "tmp/2" 4 ] →
     base.size
       ({[ "avatar" := sample_upload;
           "cover" := mkMulterFile "cover" "sea.png" "image/png" "tmp/2" 4 ]}
          : gmap string MulterFile) = 3%nat).
Proof.
  apply (middleware_any_distinct (Filters := unit) (Limits := unit) tt None
           None
           [ sample_upload; proto_upload;
             mkMulterFile "cover" "sea.png" "image/png" "tmp/2" 4 ]).
  - apply (bool_decide_unpack _). vm_compute. exact I.
  - vm_compute. reflexivity.
Defined.

(** ** More on the Post methods *)

(** X11.  [setFields] touches nothing but [title] and [body]; data without
    them, or with empty strings for them, changes nothing; and setting the
    same data twice is setting it once. *)
Theorem setFields_frame (this : Post.t) (data : Post.Data) :
  Post.files (Post.setFields this data) = Post.files this
  ∧ Post.ownerId (Post.setFields this data) = Post.ownerId this
  ∧ Post.accessHoldersIds (Post.setFields this data)
    = Post.accessHoldersIds this
  ∧ Post.createdDate (Post.setFields this data) = Post.createdDate this
  ∧ Post.updatedDate (Post.setFields this data) = Post.updatedDate this
  ∧ Post.setFields this (Post.mkData None None) = this
  ∧ Post.setFields this (Post.mkData (Some EmptyString) (Some EmptyString))
    = this
  ∧ Post.setFields (Post.setFields this data) data = Post.setFields this data.
Proof.
  destruct this, data as [[ti|] [bo|]]; unfold Post.setFields; simpl;
    repeat case_decide; simpl; repeat case_decide; done.
Qed.

(** X12.  [setFields] cannot blank a post: a title and a body that are not
    empty are not empty afterwards, whatever the data. *)
Theorem setFields_keeps_required (this : Post.t) (data : Post.Data) :
  Post.title this ≠ EmptyString → Post.body this ≠ EmptyString →
  Post.title (Post.setFields this data) ≠ EmptyString
  ∧ Post.body (Post.setFields this data) ≠ EmptyString.
Proof.
  intros Ht Hb. destruct data as [[ti|] [bo|]]; unfold Post.setFields; simpl;
    repeat case_decide; done.
Qed.

Lemma setFields_keeps_required_witness :
  Post.title
      (Post.setFields sample_post (Post.mkData (Some EmptyString) (Some "new")))
    ≠ EmptyString
  ∧ Post.body
      (Post.setFields sample_post (Post.mkData (Some EmptyString) (Some "new")))
    ≠ EmptyString.
Proof.
  apply (setFields_keeps_required sample_post
           (Post.mkData (Some EmptyString) (Some "new")));
    vm_compute; discriminate.
Defined.

Section PostMore.
Context {World : Type} `{!FileModel World}.
Implicit Types (this : Post.t) (w : World) (x : FileId).

Lemma set_files_id this : Post.set_files this (Post.files this) = this.
Proof. by destruct this. Qed.

(** X13.  However [addFile] ends, it only ever appends: the [files] sequence
    afterwards is the one before (empty when there was none) followed by at
    most one id, which is there only when [createAndMove] returned status
    [success] with a record and is that record's id; nothing else of the
    document changes, and the world is the one [createAndMove] left. *)
Theorem addFile_only_appends this (multifile : MulterFile) (userId : string)
    w :
  ∃ l : list FileId,
    default [] (Post.files (Post.addFile this multifile userId w).1.2)
      = default [] (Post.files this) ++ l
    ∧ (Post.addFile this multifile userId w).1.2
      = Post.set_files this
          (Post.files (Post.addFile this multifile userId w).1.2)
    ∧ (Post.addFile this multifile userId w).2
      = (createAndMove multifile userId w).2
    ∧ (l = []
       ∨ ∃ res m,
           (Post.addFile this multifile userId w).1.1 = Returned res
           ∧ status res = "success" ∧ model res = Some m ∧ l = [id m]).
Proof.
  unfold Post.addFile.
  destruct (createAndMove multifile userId w) as [[res|e] w1]; simpl.
  - destruct (ensure_files_spec this) as [Hfs Hsame].
    assert (Post.ensure_files this
            = Post.set_files this (Post.files (Post.ensure_files this)))
      as Hens.
    { unfold Post.ensure_files. destruct (Post.files this) eqn:E; simpl;
        [by rewrite E, set_files_same | done]. }
    case_decide as Hst.
    + destruct (model res) as [m|] eqn:Hm; simpl.
      * exists [id m]. unfold Post.push. rewrite Hfs. simpl.
        split_and!; try done.
        -- unfold Post.ensure_files. by destruct (Post.files this).
        -- right. by exists res, m.
      * exists []. rewrite app_nil_r, Hfs. simpl.
        split_and!; [done | by rewrite Hens at 1; rewrite Hfs | done | by left].
    + simpl. exists []. rewrite app_nil_r, Hfs. simpl.
      split_and!; [done | by rewrite Hens at 1; rewrite Hfs | done | by left].
  - exists []. rewrite app_nil_r, set_files_id.
    split_and!; [done | done | done | by left].
Qed.

(** X14.  [removeFileById] takes every status other than [fail] for a
    success: the [files] sequence afterwards is the one before without the
    element at the first index holding the id, nothing else of the document
    changes, and the returned object carries that status and the record, not
    the message. *)
Theorem removeFileById_not_fail this x w fs (r : Result) w' :
  Post.files this = Some fs → x ∈ fs →
  deleteAndRemoveById x w = (Returned r, w') →
  status r ≠ "fail" →
  ∃ n : nat, fs !! n = Some x
    ∧ (∀ j : nat, (j < n)%nat → fs !! j ≠ Some x)
    ∧ (Post.removeFileById this x w).1.1 =
        Returned {| status := status r; model := model r; message := None |}
    ∧ Post.files (Post.removeFileById this x w).1.2
      = Some (take n fs ++ drop (S n) fs)
    ∧ Post.same_but_files this (Post.removeFileById this x w).1.2
    ∧ (Post.removeFileById this x w).2 = w'.
Proof.
  intros Hfs Hin Hdel Hst.
  destruct (resume_spec this x fs (Returned r) Hfs Hin)
    as (n & Hn & Hfirst & Hres).
  exists n. split; [done|]. split; [done|].
  rewrite (removeFileById_awaits this x w fs _ w') by done.
  rewrite Hres, decide_False by done. cbn [fst snd]. by split_and!.
Qed.

Lemma NoDup_delete_not_elem (fs : list FileId) (n : nat) x :
  NoDup fs → fs !! n = Some x → x ∉ take n fs ++ drop (S n) fs.
Proof.
  intros Hnd Hn. rewrite <-delete_take_drop.
  rewrite (delete_Permutation fs n x Hn) in Hnd.
  by apply NoDup_cons in Hnd as [? _].
Qed.

(** X15.  Removing the same id twice from a sequence without duplicates: once
    the first removal has gone through, the second finds nothing, returns the
    not-found failure and leaves the document and the world alone. *)
Theorem removeFileById_twice this x w fs (r : Result) w' :
  Post.files this = Some fs → NoDup fs → x ∈ fs →
  deleteAndRemoveById x w = (Returned r, w') →
  status r ≠ "fail" →
  (Post.removeFileById this x w).2 = w'
  ∧ Post.removeFileById (Post.removeFileById this x w).1.2 x w' =
      (Returned (Post.not_found x), (Post.removeFileById this x w).1.2, w').
Proof.
  intros Hfs Hnd Hin Hdel Hst.
  destruct (resume_spec this x fs (Returned r) Hfs Hin)
    as (n & Hn & Hfirst & Hres).
  rewrite (removeFileById_awaits this x w fs _ w') by done.
  rewrite Hres, decide_False by done. simpl. split; [done|].
  unfold Post.removeFileById, Post.removeFileById_start. simpl.
  unfold includes. rewrite bool_decide_eq_false_2; [done|].
  by apply NoDup_delete_not_elem.
Qed.

Lemma ids_removed_all (log : list (FileId * Outcome Result)) :
  Forall (λ entry, Post.spliced entry = true) log →
  Post.ids_removed log = log.*1.
Proof.
  induction 1 as [|entry log Hentry _ IH]; [done|].
  by rewrite ids_removed_cons, Hentry, fmap_cons, IH.
Qed.

(** X16.  When every file deletion returns a status other than [fail],
    [deleteAllFiles] does its job under any completion order: it returns
    [{status: 'success'}], no removal is left pending, and the document ends
    with an empty [files] sequence and is otherwise unchanged. *)
Theorem deleteAllFiles_all_deleted this fs sched w :
  Post.files this = Some fs →
  Forall (λ entry, Post.spliced entry = true)
    (Post.r_settled (Post.deleteAllFiles this sched w).2) →
  (Post.deleteAllFiles this sched w).1 =
    {| status := "success"; model := None; message := None |}
  ∧ Post.r_pending (Post.deleteAllFiles this sched w).2 = []
  ∧ Post.r_this (Post.deleteAllFiles this sched w).2
    = Post.set_files this (Some []).
Proof.
  intros Hfs Hall.
  destruct (deleteAllFiles_spec this fs sched w Hfs)
    as (oe & cur' & Hres & Hthis & Hrem & _ & _ & Hperm & _ & Hoe).
  destruct oe as [e|].
  { destruct Hoe as (pre & y & post & Hlog & _). rewrite Hlog in Hall.
    apply Forall_app in Hall as [_ Hlast].
    apply Forall_cons in Hlast as [Hlast _]. discriminate Hlast. }
  destruct Hoe as [Hpend _]. rewrite Hpend, app_nil_r in Hperm.
  rewrite ids_removed_all in Hrem by done.
  apply Permutation_length in Hrem, Hperm. rewrite length_app in Hrem.
  assert (cur' = []) as -> by (apply length_zero_iff_nil; lia).
  done.
Qed.

(** X17.  Whatever the completion order and however the deletions end,
    [deleteAllFiles] only takes ids out: the sequence left is a subsequence
    of the original one, shorter by the number of removals that went
    through; nothing else of the document changes; and every id of the
    original sequence is accounted for once, as a removal that has settled or
    as one still pending. *)
Theorem deleteAllFiles_frame this fs sched w :
  Post.files this = Some fs →
  ∃ cur' : list FileId,
    Post.r_this (Post.deleteAllFiles this sched w).2
      = Post.set_files this (Some cur')
    ∧ cur' `sublist_of` fs
    ∧ (length cur'
       + length (Post.ids_removed
                   (Post.r_settled (Post.deleteAllFiles this sched w).2))
       = length fs)%nat
    ∧ fs ≡ₚ (Post.r_settled (Post.deleteAllFiles this sched w).2).*1
            ++ Post.r_pending (Post.deleteAllFiles this sched w).2.
Proof.
  intros Hfs.
  destruct (deleteAllFiles_spec this fs sched w Hfs)
    as (oe & cur' & _ & Hthis & Hrem & Hsl & _ & Hperm & _ & _).
  exists cur'. split_and!; try done.
  apply Permutation_length in Hrem. rewrite length_app in Hrem. lia.
Qed.

Lemma sublist_filter_eq (P : FileId → Prop) `{!∀ y, Decision (P y)}
    (l' l : list FileId) :
  l' `sublist_of` l → NoDup l → (∀ y, y ∈ l' ↔ y ∈ l ∧ P y) →
  l' = filter P l.
Proof.
  induction 1 as [|y l1 l2 Hsub IH|y l1 l2 Hsub IH]; intros Hnd Hchar.
  - done.
  - apply NoDup_cons in Hnd as [Hy Hnd].
    rewrite filter_cons_True by (apply Hchar; left).
    f_equal. apply IH; [done|]. intros z. split.
    + intros Hz. split; [by eapply elem_of_sublist|].
      apply Hchar. by right.
    + intros [Hz HP].
      assert (z ∈ y :: l1) as Hin by (apply Hchar; split; [by right|done]).
      apply elem_of_cons in Hin as [->|Hin]; done.
  - apply NoDup_cons in Hnd as [Hy Hnd].
    rewrite filter_cons_False.
    + apply IH; [done|]. intros z. split.
      * intros Hz. split; [by eapply elem_of_sublist|]. by apply Hchar.
      * intros [Hz HP]. apply Hchar. split; [by right | done].
    + intros HP. apply Hy. eapply elem_of_sublist; [|exact Hsub].
      apply Hchar. split; [by left | done].
Qed.

(** X18.  On a sequence without duplicates, whatever the completion order
    and however the deletions end, what [deleteAllFiles] leaves in [files] is
    the original sequence without the ids whose removal went through, in the
    original order. *)
Theorem deleteAllFiles_filter this fs sched w :
  Post.files this = Some fs → NoDup fs →
  Post.files (Post.r_this (Post.deleteAllFiles this sched w).2)
    = Some (filter
              (λ y, y ∉ Post.ids_removed
                          (Post.r_settled (Post.deleteAllFiles this sched w).2))
              fs).
Proof.
  intros Hfs Hnd.
  destruct (deleteAllFiles_spec this fs sched w Hfs)
    as (oe & cur' & _ & Hthis & Hrem & Hsl & _ & _ & _ & _).
  rewrite Hthis. simpl. f_equal. apply sublist_filter_eq; [done|done|].
  intros y. rewrite Hrem in Hnd. apply NoDup_app in Hnd as (_ & Hdisj & _).
  rewrite Hrem, elem_of_app. split.
  - intros Hy. split; [by right|]. intros Hr. by apply (Hdisj y).
  - by intros [[?|?] ?].
Qed.

End PostMore.

Lemma removeFileById_not_fail_witness :
  ∃ n : nat, ["a"; "b"; "c"] !! n = Some "b"
    ∧ (∀ j : nat, (j < n)%nat → ["a"; "b"; "c"] !! j ≠ Some "b")
    ∧ (Post.removeFileById (FileModel0 := odd_model) post_abc "b" []).1.1 =
        Returned {| status := "done";
                    model := Some (mkFileRecord "b" "b" "u1");
                    message := None |}
    ∧ Post.files
        (Post.removeFileById (FileModel0 := odd_model) post_abc "b" []).1.2
      = Some (take n ["a"; "b"; "c"] ++ drop (S n) ["a"; "b"; "c"])
    ∧ Post.same_but_files post_abc
        (Post.removeFileById (FileModel0 := odd_model) post_abc "b" []).1.2
    ∧ (Post.removeFileById (FileModel0 := odd_model) post_abc "b" []).2
      = ["b"].
Proof.
  apply (removeFileById_not_fail (FileModel0 := odd_model) post_abc "b" []
           ["a"; "b"; "c"]
           {| status := "done"; model := Some (mkFileRecord "b" "b" "u1");
              message := Some "removed" |} ["b"]).
  - reflexivity.
  - apply (bool_decide_unpack _). vm_compute. exact I.
  - reflexivity.
  - vm_compute. discriminate.
Defined.

Lemma removeFileById_twice_witness :
  (Post.removeFileById (FileModel0 := flaky_model) post_abc "a" []).2 = ["a"]
  ∧ Post.removeFileById (FileModel0 := flaky_model)
      (Post.removeFileById (FileModel0 := flaky_model) post_abc "a" []).1.2
      "a" ["a"] =
      (Returned (Post.not_found "a"),
       (Post.removeFileById (FileModel0 := flaky_model) post_abc "a" []).1.2,
       ["a"]).
Proof.
  apply (removeFileById_twice (FileModel0 := flaky_model) post_abc "a" []
           ["a"; "b"; "c"]
           (Commit.success (mkFileRecord "a" "a" "u1")) ["a"]).
  - reflexivity.
  - apply (bool_decide_unpack _). vm_compute. exact I.
  - apply (bool_decide_unpack _). vm_compute. exact I.
  - reflexivity.
  - vm_compute. discriminate.
Defined.

Lemma deleteAllFiles_all_deleted_witness :
  (Post.deleteAllFiles (FileModel0 := flaky_model) post_ad [1%nat] []).1 =
    {| status := "success"; model := None; message := None |}
  ∧ Post.r_pending
      (Post.deleteAllFiles (FileModel0 := flaky_model) post_ad [1%nat] []).2
    = []
  ∧ Post.r_this
      (Post.deleteAllFiles (FileModel0 := flaky_model) post_ad [1%nat] []).2
    = Post.set_files post_ad (Some []).
Proof.
  apply (deleteAllFiles_all_deleted (FileModel0 := flaky_model) post_ad
           ["a"; "d"] [1%nat] []).
  - reflexivity.
  - vm_compute. repeat constructor.
Defined.

Lemma deleteAllFiles_frame_witness :
  ∃ cur' : list FileId,
    Post.r_this
        (Post.deleteAllFiles (FileModel0 := flaky_model) post_abc [] []).2
      = Post.set_files post_abc (Some cur')
    ∧ cur' `sublist_of` ["a"; "b"; "c"]
    ∧ (length cur'
       + length (Post.ids_removed
                   (Post.r_settled
                      (Post.deleteAllFiles (FileModel0 := flaky_model)
                         post_abc [] []).2))
       = length ["a"; "b"; "c"])%nat
    ∧ ["a"; "b"; "c"]
        ≡ₚ (Post.r_settled
              (Post.deleteAllFiles (FileModel0 := flaky_model)
                 post_abc [] []).2).*1
           ++ Post.r_pending
                (Post.deleteAllFiles (FileModel0 := flaky_model)
                   post_abc [] []).2.
Proof.
  apply (deleteAllFiles_frame (FileModel0 := flaky_model) post_abc
           ["a"; "b"; "c"] [] []).
  reflexivity.
Defined.

Lemma deleteAllFiles_filter_witness :
  Post.files
      (Post.r_this
         (Post.deleteAllFiles (FileModel0 := flaky_model) post_abc
            [2%nat] []).2)
    = Some (filter
              (λ y, y ∉ Post.ids_removed
                          (Post.r_settled
                             (Post.deleteAllFiles (FileModel0 := flaky_model)
                                post_abc [2%nat] []).2))
              ["a"; "b"; "c"]).
Proof.
  apply (deleteAllFiles_filter (FileModel0 := flaky_model) post_abc
           ["a"; "b"; "c"] [2%nat] []).
  - reflexivity.
  - apply (bool_decide_unpack _). vm_compute. exact I.
Defined.
